(** * Monte Carlo module: Die, Game and Analyzer

    A shallow embedding of [montecarlo.py] and the properties its
    specification states about it.

    Python objects ([Die], [Game], the results [DataFrame]s) are mutable and
    shared by reference, so they live in a [World]; every method is a
    computation over the world that either returns or raises.  The two
    libraries the module calls, numpy and pandas, are modelled for the
    calls the module makes and only for them. *)

From Stdlib Require Import String Ascii Bool ZArith QArith Qabs Lia Lqa List Permutation.
From Stdlib Require DecimalString.
Import ListNotations.

Local Open Scope string_scope.
Local Open Scope Z_scope.
Local Open Scope list_scope.

Set Implicit Arguments.

(** ** Faces

    A face is any Python value that can be compared with [==], ordered with
    [<] (which [sorted] calls) and printed in an f-string.  The faces of one
    run share one such type; Python's [sorted] raises [TypeError] on a row
    that mixes unorderable types, which a single face type leaves out.  A
    face is a label and not one of the missing values of pandas ([None],
    NaN), which [value_counts] and [nunique] skip. *)

Class Face (F : Type) : Type := {
  face_eqb : F -> F -> bool;
  face_ltb : F -> F -> bool;
  face_str : F -> string;
  face_eqb_eq : forall x y, face_eqb x y = true <-> x = y;
  face_ltb_irrefl : forall x, face_ltb x x = false;
  face_ltb_trans : forall x y z,
    face_ltb x y = true -> face_ltb y z = true -> face_ltb x z = true;
  face_ltb_total : forall x y,
    face_ltb x y = true \/ x = y \/ face_ltb y x = true
}.

(** ** float64

    The weight column is a float64 column.  Finite values are modelled by
    exact rationals (rounding and overflow are left out); the three special
    values are kept because dividing the weights by a zero sum produces
    them, and that is how [roll] comes to fail. *)

Inductive float64 : Type :=
| Finite (q : Q)
| PInf
| NInf
| NaN.

Definition Qltb (x y : Q) : bool := negb (Qle_bool y x).

Definition isnan (x : float64) : bool :=
  match x with NaN => true | _ => false end.

(** [x + y] *)
Definition fadd (x y : float64) : float64 :=
  match x, y with
  | NaN, _ | _, NaN => NaN
  | PInf, NInf | NInf, PInf => NaN
  | PInf, _ | _, PInf => PInf
  | NInf, _ | _, NInf => NInf
  | Finite a, Finite b => Finite (a + b)
  end.

(** [x - y] *)
Definition fsub (x y : float64) : float64 :=
  match x, y with
  | NaN, _ | _, NaN => NaN
  | PInf, PInf | NInf, NInf => NaN
  | PInf, _ | _, NInf => PInf
  | NInf, _ | _, PInf => NInf
  | Finite a, Finite b => Finite (a - b)
  end.

(** [x / y], numpy's float division: a finite value over zero is an
    infinity of its sign, zero over zero is NaN. *)
Definition fdiv (x y : float64) : float64 :=
  match x, y with
  | NaN, _ | _, NaN => NaN
  | Finite a, Finite b =>
      if Qeq_bool b 0
      then if Qeq_bool a 0 then NaN else if Qltb a 0 then NInf else PInf
      else Finite (a / b)
  | Finite _, (PInf | NInf) => Finite 0
  | (PInf | NInf), (PInf | NInf) => NaN
  | PInf, Finite b => if Qltb b 0 then NInf else PInf
  | NInf, Finite b => if Qltb b 0 then PInf else NInf
  end.

(** [abs(x)] *)
Definition fabs (x : float64) : float64 :=
  match x with
  | Finite a => Finite (Qabs a)
  | PInf | NInf => PInf
  | NaN => NaN
  end.

(** [x < y]; every comparison with NaN is false. *)
Definition fltb (x y : float64) : bool :=
  match x, y with
  | NaN, _ | _, NaN => false
  | Finite a, Finite b => Qltb a b
  | NInf, NInf => false
  | NInf, _ => true
  | _, NInf => false
  | PInf, _ => false
  | Finite _, PInf => true
  end.

(** [x <= y] *)
Definition fleb (x y : float64) : bool :=
  match x, y with
  | NaN, _ | _, NaN => false
  | Finite a, Finite b => Qle_bool a b
  | NInf, _ => true
  | _, PInf => true
  | _, NInf => false
  | PInf, Finite _ => false
  end.

(** ** Exceptions and outcomes *)

Inductive exn : Type :=
| TypeError (msg : string)
| ValueError (msg : string)
| IndexError (msg : string).

(** A call returns, raises, or is [Stuck].  [Stuck] is not a Python
    behaviour: it is the outcome of the model where Python has none, a
    reference that names no object of the world.  No world built by the
    constructors reaches it. *)
Inductive outcome (A : Type) : Type :=
| Return (a : A)
| Raise (e : exn)
| Stuck.

Arguments Return {A} a.
Arguments Raise {A} e.
Arguments Stuck {A}.

(** ** numpy's global random state

    [np.random] draws from one global generator.  Its stream of 53-bit
    integers is arbitrary here; [random_sample] turns the next one into a
    double of [[0, 1)], as the Mersenne Twister's [genrand_res53] does. *)

Record RandomState : Type := {
  stream : nat -> Z;
  pos : nat
}.

Definition two53 : Z := 9007199254740992.

Definition next_double (rs : RandomState) : Q * RandomState :=
  (Qmake (stream rs (pos rs) mod two53) (Z.to_pos two53),
   {| stream := stream rs; pos := S (pos rs) |}).

Fixpoint random_samples (n : nat) (rs : RandomState) : list Q * RandomState :=
  match n with
  | O => ([], rs)
  | S n' =>
      let (u, rs1) := next_double rs in
      let (us, rs2) := random_samples n' rs1 in
      (u :: us, rs2)
  end.

(** ** Python arguments

    [isinstance] looks at the class of an argument; these types keep the
    classes the module tells apart. *)

Inductive pyseq (A : Type) : Type :=
| PyList (l : list A)
| PyNdarray (l : list A)
| PyOther.

Arguments PyOther {A}.

Inductive pyobj : Type :=
| PyDie (r : nat)
| PyGame (r : nat)
| PyNone.

(** ** List helpers shared by the numpy and pandas models *)

Section Lists.
Variable A : Type.
Variable eqb : A -> A -> bool.

Fixpoint list_eqb (l1 l2 : list A) : bool :=
  match l1, l2 with
  | [], [] => true
  | x :: l1', y :: l2' => eqb x y && list_eqb l1' l2'
  | _, _ => false
  end.

(** [Series.unique]: the distinct values in order of first appearance. *)
Fixpoint unique (l : list A) : list A :=
  match l with
  | [] => []
  | x :: l' => x :: filter (fun y => negb (eqb x y)) (unique l')
  end.

(** How many entries of [l] equal [x]. *)
Definition count (x : A) (l : list A) : Z :=
  Z.of_nat (length (filter (eqb x) l)).

(** [Series.sort_values(ascending=False)] on the counts; equal counts
    keep their order. *)
Fixpoint insert_by_count (p : A * Z) (l : list (A * Z)) : list (A * Z) :=
  match l with
  | [] => [p]
  | q :: l' =>
      if snd q <=? snd p then p :: q :: l' else q :: insert_by_count p l'
  end.

Definition sort_values_desc (l : list (A * Z)) : list (A * Z) :=
  fold_right insert_by_count [] l.

(** [Series.value_counts()]: one entry per distinct value with the number
    of its occurrences, most frequent first.  The result is a Series
    whose index holds the values. *)
Definition value_counts (l : list A) : list (A * Z) :=
  sort_values_desc (map (fun x => (x, count x l)) (unique l)).

(** Label lookup in such a Series; [None] is a missing label. *)
Fixpoint lookup (x : A) (s : list (A * Z)) : option Z :=
  match s with
  | [] => None
  | (y, c) :: s' => if eqb x y then Some c else lookup x s'
  end.

(** [l[i] = x] on a world table. *)
Fixpoint set_nth (i : nat) (x : A) (l : list A) : list A :=
  match l, i with
  | [], _ => []
  | _ :: l', O => x :: l'
  | y :: l', S i' => y :: set_nth i' x l'
  end.

Fixpoint last_opt (l : list A) : option A :=
  match l with
  | [] => None
  | [x] => Some x
  | _ :: l' => last_opt l'
  end.

(** The rows of a column-major table of [n] rows. *)
Fixpoint transpose (n : nat) (cols : list (list A)) : list (list A) :=
  match cols with
  | [] => repeat [] n
  | c :: cs => map (fun xr => fst xr :: snd xr) (combine c (transpose n cs))
  end.

(** [enumerate] *)
Definition enumerate (l : list A) : list (nat * A) :=
  combine (seq 0 (length l)) l.
End Lists.

(** ** numpy: [np.random.choice(a, size, p)]

    The legacy [RandomState.choice] with replacement and a probability
    vector: the checks it makes, in its order, then inversion of the
    cumulative distribution at [size] uniform samples. *)

Definition kahan_sum (p : list float64) : float64 :=
  fold_left fadd p (Finite 0).

Fixpoint cumsum_from (acc : float64) (p : list float64) : list float64 :=
  match p with
  | [] => []
  | x :: p' => let s := fadd acc x in s :: cumsum_from s p'
  end.

Definition cumsum (p : list float64) : list float64 := cumsum_from (Finite 0) p.

(** [sqrt(np.finfo(np.float64).eps)], that is [2 ** -26]. *)
Definition atol : float64 := Finite (1 # 67108864).

(** [cdf.searchsorted(u, side='right')] on an ascending [cdf]: the first
    position whose entry exceeds [u]. *)
Fixpoint searchsorted_right (cdf : list float64) (u : float64) : nat :=
  match cdf with
  | [] => O
  | c :: cdf' => if fltb u c then O else S (searchsorted_right cdf' u)
  end.

Section Choice.
Variable F : Type.

(** [a[idx]] with an index array. *)
Fixpoint take (a : list F) (idx : list nat) : outcome (list F) :=
  match idx with
  | [] => Return []
  | i :: idx' =>
      match nth_error a i with
      | None => Raise (IndexError "index out of bounds")
      | Some x =>
          match take a idx' with
          | Return xs => Return (x :: xs)
          | other => other
          end
      end
  end.

Definition choice (a : list F) (size : Z) (p : list float64)
    (rs : RandomState) : outcome (list F) * RandomState :=
  let pop_size := length a in
  if Nat.eqb pop_size 0 && negb (size =? 0) then
    (Raise (ValueError "'a' cannot be empty unless no samples are taken"), rs)
  else if negb (Nat.eqb (length p) pop_size) then
    (Raise (ValueError "'a' and 'p' must have same size"), rs)
  else
    let p_sum := kahan_sum p in
    if isnan p_sum then
      (Raise (ValueError "probabilities contain NaN"), rs)
    else if existsb (fun x => fltb x (Finite 0)) p then
      (Raise (ValueError "probabilities are not non-negative"), rs)
    else if fltb atol (fabs (fsub p_sum (Finite 1))) then
      (Raise (ValueError "probabilities do not sum to 1"), rs)
    else
      match last_opt (cumsum p) with
      | None => (Raise (IndexError "index -1 is out of bounds"), rs)
      | Some total =>
          let cdf := map (fun c => fdiv c total) (cumsum p) in
          if size <? 0 then
            (Raise (ValueError "negative dimensions are not allowed"), rs)
          else
            let (us, rs') := random_samples (Z.to_nat size) rs in
            let idx := map (fun u => searchsorted_right cdf (Finite u)) us in
            (take a idx, rs')
      end.
End Choice.

(** ** pandas: the frames the module builds and the calls it makes on them *)

Section Pandas.
Context {F : Type} {HF : Face F}.

(** [sorted(row)]: ascending by [<], equal faces in their order. *)
Fixpoint insert_face (x : F) (l : list F) : list F :=
  match l with
  | [] => [x]
  | y :: l' => if face_ltb y x then y :: insert_face x l' else x :: y :: l'
  end.

Definition sorted (l : list F) : list F := fold_right insert_face [] l.

(** A results frame, stored by column as pandas stores it.  Column [j]
    carries the label [j] and the index is [RangeIndex(nrows)], so only
    the name of the index is kept beside the data.  A frame without
    columns has no rows. *)
Record DataFrame : Type := {
  index_name : option string;
  columns : list (list F)
}.

Definition nrows (df : DataFrame) : nat :=
  match columns df with
  | [] => O
  | c :: _ => length c
  end.

Definition ncols (df : DataFrame) : nat := length (columns df).

(** The rows of [df], each across the columns in their order. *)
Definition iterrows (df : DataFrame) : list (list F) :=
  transpose (nrows df) (columns df).

(** [pd.DataFrame(outcomes)] for a dict from [0, 1, ...] to arrays. *)
Definition pd_DataFrame (outcomes : list (list F)) : outcome DataFrame :=
  match outcomes with
  | [] => Return {| index_name := None; columns := [] |}
  | c :: cs =>
      if forallb (fun c' => Nat.eqb (length c') (length c)) cs
      then Return {| index_name := None; columns := outcomes |}
      else Raise (ValueError "All arrays must be of the same length")
  end.

(** [df.index.name = name] *)
Definition set_index_name (name : string) (df : DataFrame) : DataFrame :=
  {| index_name := Some name; columns := columns df |}.

(** [df.copy()]: a new object with the same content. *)
Definition copy (df : DataFrame) : DataFrame :=
  {| index_name := index_name df; columns := columns df |}.

(** [row.nunique()] *)
Definition nunique (row : list F) : nat := length (unique face_eqb row).

(** The long frame of [melt]: the kept index, its name, the names of the
    two columns, and per row the index value, the variable and the
    value. *)
Record LongFrame : Type := {
  long_index_name : option string;
  long_var_name : string;
  long_value_name : string;
  long_rows : list (nat * nat * F)
}.

(** [df.melt(var_name=..., value_name=..., ignore_index=False)]: the
    columns one after the other, each with the index beside it. *)
Definition melt (var_name value_name : string) (df : DataFrame) : LongFrame :=
  {| long_index_name := index_name df;
     long_var_name := var_name;
     long_value_name := value_name;
     long_rows :=
       flat_map (fun jc =>
                   map (fun iv => (fst iv, fst jc, snd iv))
                       (enumerate (snd jc)))
                (enumerate (columns df)) |}.

(** Column labels of a derived frame: a die position of the results
    frame, or a face. *)
Inductive label : Type :=
| DieNumber (j : nat)
| FaceValue (f : F).

(** A derived frame, by row. *)
Record Table (C : Type) : Type := {
  labels : list label;
  data : list (list C)
}.

(** The index of [pd.DataFrame(dict of Series)]: the first index when all
    are equal, else the sorted union. *)
Definition union_indexes (indexes : list (list F)) : list F :=
  match indexes with
  | [] => []
  | i0 :: rest =>
      if forallb (list_eqb face_eqb i0) rest then i0
      else sorted (unique face_eqb (concat indexes))
  end.

(** [df.apply(lambda row: row.value_counts(), axis=1)].

    On a frame with an empty axis pandas does not call the function on
    any row: it probes it on an empty Series, and as the probe returns a
    Series the result is [df.copy()], the empty frame under the columns
    of [df].  Otherwise the Series returned for the rows become the rows
    of a frame over the union of their indexes, NaN where a row lacks a
    label. *)
Definition apply_value_counts (df : DataFrame) : Table (option Z) :=
  if Nat.eqb (nrows df) 0 || Nat.eqb (ncols df) 0 then
    {| labels := map DieNumber (seq 0 (ncols df)); data := [] |}
  else
    let results := map (value_counts face_eqb) (iterrows df) in
    let cols := union_indexes (map (map fst) results) in
    {| labels := map FaceValue cols;
       data := map (fun s => map (fun f => lookup face_eqb f s) cols) results |}.

(** [.fillna(v)] *)
Definition fillna (v : Z) (t : Table (option Z)) : Table Z :=
  {| labels := labels t;
     data := map (map (fun c => match c with Some z => z | None => v end))
                 (data t) |}.

(** [.astype(int)]: the cells are whole numbers already. *)
Definition astype_int (t : Table Z) : Table Z := t.

(** [df.apply(lambda row: tuple(sorted(row)), axis=1)]: a Series of
    tuples, one per row (the empty Series on a frame with an empty
    axis). *)
Definition apply_sorted_tuple (df : DataFrame) : list (list F) :=
  map sorted (iterrows df).

(** A frame of two named columns, a tuple and a number per row. *)
Record ComboFrame : Type := {
  combo_names : list string;
  combo_rows : list (list F * Z)
}.

(** [series.reset_index(name=...)]: the index becomes the column
    ['index']. *)
Definition reset_index (name : string) (s : list (list F * Z)) : ComboFrame :=
  {| combo_names := ["index"; name]; combo_rows := s |}.

(** [.rename(columns={old: new})] *)
Definition rename (old new : string) (t : ComboFrame) : ComboFrame :=
  {| combo_names :=
       map (fun c => if String.eqb c old then new else c) (combo_names t);
     combo_rows := combo_rows t |}.
End Pandas.

Arguments DataFrame F : clear implicits.
Arguments LongFrame F : clear implicits.
Arguments label F : clear implicits.
Arguments Table F C : clear implicits.
Arguments ComboFrame F : clear implicits.

(** ** The world and the computations over it *)

Section Classes.
Context {F : Type} {HF : Face F}.

(** [Die.die]: the frame of columns ['face'] and ['weight'], by row. *)
Record Die : Type := {
  die : list (F * float64)
}.

(** A [Game] holds its dice and its results by reference. *)
Record Game : Type := {
  dice : list nat;
  _results : option nat
}.

Record Analyzer : Type := {
  game : nat;
  results : nat
}.

(** The objects alive, each class in its table under its reference, and
    numpy's random state. *)
Record World : Type := {
  dies : list Die;
  games : list Game;
  frames : list (DataFrame F);
  rng : RandomState
}.

Definition M (A : Type) : Type := World -> outcome A * World.

Definition ret {A : Type} (a : A) : M A := fun w => (Return a, w).

Definition raise {A : Type} (e : exn) : M A := fun w => (Raise e, w).

Definition bind {A B : Type} (m : M A) (k : A -> M B) : M B :=
  fun w =>
    match m w with
    | (Return a, w') => k a w'
    | (Raise e, w') => (Raise e, w')
    | (Stuck, w') => (Stuck, w')
    end.

Notation "x <- m ;; k" := (bind m (fun x => k))
  (at level 61, m at next level, right associativity).
Notation "m ;;; k" := (bind m (fun _ => k))
  (at level 61, right associativity).

(** Lifting a library call that raises but leaves the world alone. *)
Definition lift {A : Type} (o : outcome A) : M A := fun w => (o, w).

(** *** References *)

Definition get_die (r : nat) : M Die :=
  fun w => match nth_error (dies w) r with
           | Some d => (Return d, w)
           | None => (Stuck, w)
           end.

Definition get_game (r : nat) : M Game :=
  fun w => match nth_error (games w) r with
           | Some g => (Return g, w)
           | None => (Stuck, w)
           end.

Definition get_frame (r : nat) : M (DataFrame F) :=
  fun w => match nth_error (frames w) r with
           | Some df => (Return df, w)
           | None => (Stuck, w)
           end.

Definition put_die (r : nat) (d : Die) : M unit :=
  fun w => (Return tt,
            {| dies := set_nth r d (dies w); games := games w;
               frames := frames w; rng := rng w |}).

Definition put_game (r : nat) (g : Game) : M unit :=
  fun w => (Return tt,
            {| dies := dies w; games := set_nth r g (games w);
               frames := frames w; rng := rng w |}).

Definition put_frame (r : nat) (df : DataFrame F) : M unit :=
  fun w => (Return tt,
            {| dies := dies w; games := games w;
               frames := set_nth r df (frames w); rng := rng w |}).

Definition new_die (d : Die) : M nat :=
  fun w => (Return (length (dies w)),
            {| dies := dies w ++ [d]; games := games w;
               frames := frames w; rng := rng w |}).

Definition new_game (g : Game) : M nat :=
  fun w => (Return (length (games w)),
            {| dies := dies w; games := games w ++ [g];
               frames := frames w; rng := rng w |}).

Definition new_frame (df : DataFrame F) : M nat :=
  fun w => (Return (length (frames w)),
            {| dies := dies w; games := games w;
               frames := frames w ++ [df]; rng := rng w |}).

(** [np.random.choice] on the global random state. *)
Definition np_random_choice (a : list F) (size : Z) (p : list float64)
    : M (list F) :=
  fun w =>
    let (o, rs) := choice a size p (rng w) in
    (o, {| dies := dies w; games := games w; frames := frames w; rng := rs |}).

(** *** class Die *)

(** [self.die['weight'].sum()]; pandas skips NaN. *)
Definition series_sum (ws : list float64) : float64 :=
  fold_left fadd (filter (fun x => negb (isnan x)) ws) (Finite 0).

Definition Die_init (faces : pyseq F) : M nat :=
  match faces with
  | PyList l | PyNdarray l =>
      new_die {| die := map (fun f => (f, Finite 1)) l |}
  | PyOther => raise (TypeError "Faces must be a list or numpy array.")
  end.

(** [self.die.loc[self.die['face'] == face, 'weight'] = new_weight] *)
Definition loc_set_weight (face : F) (new_weight : float64)
    (t : list (F * float64)) : list (F * float64) :=
  map (fun r => if face_eqb (fst r) face then (fst r, new_weight) else r) t.

Definition change_weight (self : nat) (face : F) (new_weight : float64)
    : M unit :=
  d <- get_die self ;;
  if negb (existsb (fun f => face_eqb f face) (map fst (die d))) then
    raise (ValueError
             (String.append "Face "
                (String.append (face_str face) " does not exist.")))
  else
    put_die self {| die := loc_set_weight face new_weight (die d) |}.

Definition show_state (self : nat) : M (list (F * float64)) :=
  d <- get_die self ;;
  ret (die d).

Definition roll (self : nat) (num_rolls : Z) : M (list F) :=
  d <- get_die self ;;
  let weight := map snd (die d) in
  np_random_choice (map fst (die d)) num_rolls
    (map (fun x => fdiv x (series_sum weight)) weight).

(** *** class Game *)

(** The loop of [__init__] over the elements of [dice]. *)
Fixpoint all_dice (l : list pyobj) : option (list nat) :=
  match l with
  | [] => Some []
  | PyDie r :: l' =>
      match all_dice l' with
      | Some rs => Some (r :: rs)
      | None => None
      end
  | _ :: _ => None
  end.

Definition Game_init (dice_arg : pyseq pyobj) : M nat :=
  match dice_arg with
  | PyList l =>
      match all_dice l with
      | Some rs => new_game {| dice := rs; _results := None |}
      | None =>
          raise (TypeError "All elements in the list must be Die objects.")
      end
  | _ => raise (TypeError "Dice must be a list of Die objects.")
  end.

(** The loop of [play]: [outcomes[i] = die.roll(num_rolls)], in order. *)
Fixpoint roll_each (ds : list nat) (num_rolls : Z) : M (list (list F)) :=
  match ds with
  | [] => ret []
  | d :: ds' =>
      c <- roll d num_rolls ;;
      cs <- roll_each ds' num_rolls ;;
      ret (c :: cs)
  end.

Definition play (self : nat) (num_rolls : Z) : M unit :=
  g <- get_game self ;;
  outcomes <- roll_each (dice g) num_rolls ;;
  df <- lift (pd_DataFrame outcomes) ;;
  r <- new_frame df ;;
  put_game self {| dice := dice g; _results := Some r |} ;;;
  df' <- get_frame r ;;
  put_frame r (set_index_name "roll_number" df').

(** What [show_results] hands back: a new frame of the world, or a long
    frame. *)
Inductive view : Type :=
| Wide (r : nat)
| Narrow (t : LongFrame F).

Definition show_results (self : nat) (form : string) : M view :=
  g <- get_game self ;;
  match _results g with
  | None =>
      raise (ValueError "No results available. Please play the game first.")
  | Some r =>
      if String.eqb form "wide" then
        df <- get_frame r ;;
        r' <- new_frame (copy df) ;;
        ret (Wide r')
      else if String.eqb form "narrow" then
        df <- get_frame r ;;
        ret (Narrow (melt "die_number" "face_rolled" df))
      else
        raise (ValueError "Invalid form option. Use 'wide' or 'narrow'.")
  end.

(** *** class Analyzer *)

(** [show_results()] is called with its default, ['wide'], and hands a
    frame back. *)
Definition Analyzer_init (game_arg : pyobj) : M Analyzer :=
  match game_arg with
  | PyGame g =>
      v <- show_results g "wide" ;;
      match v with
      | Wide r => ret {| game := g; results := r |}
      | Narrow _ => fun w => (Stuck, w)
      end
  | _ => raise (TypeError "Input must be an instance of the Game class.")
  end.

(** [df[mask]]: the rows whose entry of the mask is true. *)
Definition getitem_mask (df : DataFrame F) (mask : list bool)
    : list (list F) :=
  map snd (filter fst (combine mask (iterrows df))).

Definition jackpot (self : Analyzer) : M Z :=
  df <- get_frame (results self) ;;
  let mask := map (fun row => Nat.eqb (nunique row) 1) (iterrows df) in
  ret (Z.of_nat (length (getitem_mask df mask))).

Definition face_counts_per_roll (self : Analyzer) : M (Table F Z) :=
  df <- get_frame (results self) ;;
  ret (astype_int (fillna 0 (apply_value_counts df))).

Definition combo (self : Analyzer) : M (ComboFrame F) :=
  df <- get_frame (results self) ;;
  let combos := apply_sorted_tuple df in
  ret (rename "index" "combination"
         (reset_index "count" (value_counts (list_eqb face_eqb) combos))).

Definition permutation_count (self : Analyzer) : M (Table F Z) :=
  df <- get_frame (results self) ;;
  ret (astype_int (fillna 0 (apply_value_counts df))).
End Classes.

Arguments Die F : clear implicits.
Arguments World F : clear implicits.
Arguments M F A : clear implicits.
Arguments view F : clear implicits.

(** ** Integer faces, as in the module's tests *)

Definition Z_str (z : Z) : string :=
  DecimalString.NilZero.string_of_int (Z.to_int z).

#[export] Instance Face_Z : Face Z.
Proof.
  refine {| face_eqb := Z.eqb; face_ltb := Z.ltb; face_str := Z_str |}.
  - intros x y. apply Z.eqb_eq.
  - intros x. apply Z.ltb_irrefl.
  - intros x y z Hxy Hyz. apply Z.ltb_lt in Hxy, Hyz. apply Z.ltb_lt. lia.
  - intros x y. destruct (Z.lt_trichotomy x y) as [Hlt | [Heq | Hgt]].
    + left. now apply Z.ltb_lt.
    + right. now left.
    + right. right. now apply Z.ltb_lt.
Defined.

(** The world before any object exists, over a generator whose [k]-th
    integer is [draws k]. *)
Definition empty_world (draws : nat -> Z) : World Z :=
  {| dies := []; games := []; frames := [];
     rng := {| stream := draws; pos := O |} |}.

(** ** Notions the properties below are stated with *)

(** The sum of a column of integers, [Series.sum()]. *)
Definition zsum (l : list Z) : Z := fold_right Z.add 0 l.

Definition is_finite (x : float64) : bool :=
  match x with Finite _ => true | _ => false end.

Section Notions.
Context {F : Type} {HF : Face F}.

Definition face_dec (x y : F) : {x = y} + {x <> y}.
Proof.
  destruct (face_eqb x y) eqn:E.
  - left. now apply face_eqb_eq.
  - right. intros Heq. apply face_eqb_eq in Heq. congruence.
Defined.

(** [x <= y] for faces: not [y < x]. *)
Definition face_le (x y : F) : Prop := face_ltb y x = false.

(** Ascending: every face is at most the faces after it. *)
Fixpoint ascending (l : list F) : Prop :=
  match l with
  | [] => True
  | x :: l' => Forall (face_le x) l' /\ ascending l'
  end.

(** Every column of the frame has as many entries as the index: what
    [pd.DataFrame] checks before it builds a frame. *)
Definition rectangular (df : DataFrame F) : Prop :=
  Forall (fun c => length c = nrows df) (columns df).

(** Every die position of the row shows the same face. *)
Definition all_equal (row : list F) : bool :=
  match row with
  | [] => true
  | x :: row' => forallb (face_eqb x) row'
  end.

(** The cell of the frame at roll [i] and die [j]. *)
Definition cell (df : DataFrame F) (i j : nat) : option F :=
  match nth_error (columns df) j with
  | Some c => nth_error c i
  | None => None
  end.




(** A die that [roll] can draw from: every weight finite and not
    negative, and their sum positive. *)
Definition nonneg_weight (x : float64) : bool :=
  match x with
  | Finite q => Qle_bool 0 q
  | _ => false
  end.

Definition rollable (d : Die F) : bool :=
  forallb nonneg_weight (map snd (die d))
  && fltb (Finite 0) (series_sum (map snd (die d))).

(** The frames of the world are rectangular. *)
Definition wf_world (w : World F) : Prop :=
  Forall rectangular (frames w).

(** The objects of [w'] are those of [w]: only the random state may
    differ. *)
Definition same_objects (w w' : World F) : Prop :=
  dies w' = dies w /\ games w' = games w /\ frames w' = frames w.

(** What the rolls of a die put in its column. *)
Definition column_of (w : World F) (n : Z) (d : nat) (c : list F) : Prop :=
  exists D, nth_error (dies w) d = Some D /\
            length c = Z.to_nat n /\
            Forall (fun x => In x (map fst (die D))) c.
End Notions.

(** ** The statements of the specification, as predicates *)

Section Statements.
Context {F : Type} {HF : Face F}.


End Statements.

(** ** Concrete runs

    The worlds below are built by the module's own calls, from the empty
    world and a fixed stream of draws. *)

Definition example_draws (k : nat) : Z := 3000000000000000 * Z.of_nat k.

Definition world0 : World Z := empty_world example_draws.

(** [d1 = Die([1, 2, 3]); d2 = Die([1, 2, 3]); game = Game([d1, d2])] *)
Definition two_dice_world : World Z :=
  snd (bind (Die_init (PyList [1; 2; 3])) (fun d1 =>
       bind (Die_init (PyList [1; 2; 3])) (fun d2 =>
       Game_init (PyList [PyDie d1; PyDie d2]))) world0).

Definition two_dice_game : Game := {| dice := [0%nat; 1%nat]; _results := None |}.

(** [game.play(4)] *)
Definition played_world : World Z := snd (play 0 4 two_dice_world).

(** [analyzer = Analyzer(game)] *)
Definition analysed_world : World Z :=
  snd (Analyzer_init (PyGame 0) played_world).

Definition example_analyzer : Analyzer := {| game := 0; results := 1 |}.

(** The results that the draws give: the rolls (1, 1), (1, 2), (2, 3) and
    (3, 1). *)
Definition example_frame : DataFrame Z :=
  {| index_name := Some "roll_number";
     columns := [[1; 1; 2; 3]; [1; 2; 3; 1]] |}.






(** [Die([1, 2, 3])] alone. *)
Definition one_die_world : World Z := snd (Die_init (PyList [1; 2; 3]) world0).

(** [d = Die([1, 2]); d.change_weight(1, x); d.change_weight(2, y)] *)
Definition weighted_die_world (x y : Q) : World Z :=
  snd (bind (Die_init (PyList [1; 2])) (fun d =>
       bind (change_weight d 1 (Finite x)) (fun _ =>
       change_weight d 2 (Finite y))) world0).

(** ** Further notions, for the properties of the methods themselves *)

(** The running sums of [ps] after [acc], as exact rationals. *)
Fixpoint qcumsum (acc : Q) (ps : list Q) : list Q :=
  match ps with
  | [] => []
  | p :: ps' => (acc + p)%Q :: qcumsum (acc + p)%Q ps'
  end.

(** Every number is at most the numbers before it. *)
Fixpoint descending (l : list Z) : Prop :=
  match l with
  | [] => True
  | x :: l' => Forall (fun y => y <= x) l' /\ descending l'
  end.

Section MoreNotions.
Context {F : Type} {HF : Face F}.

(** The face [x] stands in a row of the die with a positive weight. *)
Definition positive_face (D : Die F) (x : F) : Prop :=
  exists q, In (x, Finite q) (die D) /\ (0 < q)%Q.

(** Every row of the die with the face [f] has the weight 0. *)
Definition zero_weight (D : Die F) (f : F) : Prop :=
  forall y, In (f, y) (die D) -> y = Finite 0.

(** The world [w'] has the objects of [w] and, beyond them, new frames
    only. *)
Definition only_new_frames (w w' : World F) : Prop :=
  dies w' = dies w /\ games w' = games w /\ rng w' = rng w /\
  forall k, (k < length (frames w))%nat ->
            nth_error (frames w') k = nth_error (frames w) k.
End MoreNotions.

(** [d = Die([1, 2]); d.change_weight(1, 0); game = Game([d])]: face 1
    cannot be drawn. *)
Definition loaded_world : World Z :=
  snd (bind (Die_init (PyList [1; 2])) (fun d =>
       bind (change_weight d 1 (Finite 0)) (fun _ =>
       Game_init (PyList [PyDie d]))) world0).

Definition loaded_die : Die Z := {| die := [(1, Finite 0); (2, Finite 1)] |}.

Definition loaded_game : Game := {| dice := [0%nat]; _results := None |}.


Definition dead_game : Game := {| dice := [0%nat]; _results := None |}.

(** The results of the run with the two dice in the other order. *)
Definition swapped_frame : DataFrame Z :=
  {| index_name := Some "roll_number";
     columns := [[1; 2; 3; 1]; [1; 1; 2; 3]] |}.

(** A world that holds both tables, each under an Analyzer. *)
Definition two_tables_world : World Z :=
  {| dies := dies analysed_world; games := games analysed_world;
     frames := [swapped_frame; example_frame]; rng := rng analysed_world |}.

(** The die that [Die([1, 2, 3])] builds, and the game of two such dice
    after [play(4)]. *)
Definition fair_die : Die Z :=
  {| die := [(1, Finite 1); (2, Finite 1); (3, Finite 1)] |}.

Definition played_game : Game :=
  {| dice := [0%nat; 1%nat]; _results := Some 0%nat |}.

(** The Analyzer of the table with the dice in the other order. *)
Definition swapped_analyzer : Analyzer := {| game := 0; results := 0 |}.

(** ** The unit tests of [montecarlo_test.py]

    Each test method as the script it runs, up to its assertion; what it
    prints is left out. *)

(** [a == b] on floats. *)
Definition feqb (x y : float64) : bool := fleb x y && fleb y x.

(** [state.loc[label, 'weight']] on the frame of a die, whose index is
    0, 1, ...; a label outside it is a [KeyError], which is not one of
    the module's exceptions. *)
Definition loc_weight (label : nat) (state : list (Z * float64))
    : M Z float64 :=
  fun w => match nth_error state label with
           | Some row => (Return (snd row), w)
           | None => (Stuck, w)
           end.

(** [len(df)] on what [show_results] returns. *)
Definition len_view (v : view Z) : M Z nat :=
  match v with
  | Wide r => bind (get_frame r) (fun df => ret (nrows df))
  | Narrow t => ret (length (long_rows t))
  end.

(** [TestDie.test_change_weight]: whether the weight at label 0 equals 5. *)
Definition test_change_weight : M Z bool :=
  bind (Die_init (PyList [1; 2; 3])) (fun die =>
  bind (change_weight die 1 (Finite 5)) (fun _ =>
  bind (show_state die) (fun _ =>
  bind (show_state die) (fun state =>
  bind (loc_weight 0 state) (fun x =>
  ret (feqb x (Finite 5))))))).

(** [TestGame.test_play]: whether the results have 10 rows. *)
Definition test_play : M Z bool :=
  bind (Die_init (PyList [1; 2; 3])) (fun die1 =>
  bind (Die_init (PyList [1; 2; 3])) (fun die2 =>
  bind (Game_init (PyList [PyDie die1; PyDie die2])) (fun game =>
  bind (play game 10) (fun _ =>
  bind (show_results game "wide") (fun v =>
  bind (len_view v) (fun len =>
  ret (Nat.eqb len 10))))))).

(** [TesttAnalyzer.test_jackpot]: the script returns [jackpot_count], the
    value that the test asserts to be an [int]. *)
Definition test_jackpot : M Z Z :=
  bind (Die_init (PyList [1; 2; 3])) (fun die =>
  bind (Game_init (PyList [PyDie die])) (fun game =>
  bind (play game 5) (fun _ =>
  bind (Analyzer_init (PyGame game)) (fun analyzer =>
  bind (jackpot analyzer) (fun jackpot_count =>
  bind (show_results game "wide") (fun _ =>
  ret jackpot_count)))))).

(** * Facts about the list helpers *)

Lemma zsum_app (l1 l2 : list Z) : zsum (l1 ++ l2) = zsum l1 + zsum l2.
Proof.
  induction l1 as [| x l1 IH]; simpl; [reflexivity | rewrite IH; lia].
Qed.

Lemma zsum_perm (l1 l2 : list Z) : Permutation l1 l2 -> zsum l1 = zsum l2.
Proof.
  induction 1; simpl; lia.
Qed.

Lemma zsum_nonneg (l : list Z) : Forall (fun z => 0 <= z) l -> 0 <= zsum l.
Proof.
  induction 1; simpl; lia.
Qed.

Lemma nth_error_set_nth_other (A : Type) (l : list A) (i j : nat) (x : A) :
  i <> j -> nth_error (set_nth i x l) j = nth_error l j.
Proof.
  revert i j. induction l as [| y l IH]; intros [| i] [| j] Hij; simpl;
    try reflexivity; try congruence.
  apply IH. congruence.
Qed.

Lemma nth_error_set_nth_same (A : Type) (l : list A) (i : nat) (x y : A) :
  nth_error l i = Some y -> nth_error (set_nth i x l) i = Some x.
Proof.
  revert i. induction l as [| z l IH]; intros [| i] Hi; simpl in *;
    try discriminate; auto.
Qed.

Lemma length_set_nth (A : Type) (l : list A) (i : nat) (x : A) :
  length (set_nth i x l) = length l.
Proof.
  revert i. induction l as [| z l IH]; intros [| i]; simpl; auto.
Qed.

Lemma nth_error_snoc_old (A : Type) (l : list A) (x : A) (i : nat) :
  (i < length l)%nat -> nth_error (l ++ [x]) i = nth_error l i.
Proof.
  intros Hi. now apply nth_error_app1.
Qed.

Lemma nth_error_snoc_new (A : Type) (l : list A) (x : A) :
  nth_error (l ++ [x]) (length l) = Some x.
Proof.
  rewrite nth_error_app2 by lia. now rewrite Nat.sub_diag.
Qed.

Section ListFacts.
Variable A : Type.
Variable eqb : A -> A -> bool.
Hypothesis eqb_eq : forall x y, eqb x y = true <-> x = y.

Lemma eqb_refl (x : A) : eqb x x = true.
Proof. now apply eqb_eq. Qed.

Lemma eqb_neq (x y : A) : eqb x y = false <-> x <> y.
Proof.
  split.
  - intros Hf Heq. apply eqb_eq in Heq. congruence.
  - intros Hne. destruct (eqb x y) eqn:E; [| reflexivity].
    apply eqb_eq in E. contradiction.
Qed.

Lemma list_eqb_eq (l1 l2 : list A) : list_eqb eqb l1 l2 = true <-> l1 = l2.
Proof.
  revert l2. induction l1 as [| x l1 IH]; intros [| y l2]; simpl;
    try (split; congruence).
  rewrite andb_true_iff, eqb_eq, IH. split.
  - intros [-> ->]. reflexivity.
  - intros E. injection E. auto.
Qed.

Lemma In_unique (x : A) (l : list A) : In x (unique eqb l) <-> In x l.
Proof.
  induction l as [| y l IH]; simpl; [tauto |].
  rewrite filter_In, IH, negb_true_iff, eqb_neq.
  destruct (eqb y x) eqn:E.
  - apply eqb_eq in E. tauto.
  - apply eqb_neq in E. tauto.
Qed.

Lemma NoDup_unique (l : list A) : NoDup (unique eqb l).
Proof.
  induction l as [| y l IH]; simpl; constructor.
  - rewrite filter_In, negb_true_iff, eqb_neq. tauto.
  - now apply NoDup_filter.
Qed.

Lemma insert_by_count_perm (p : A * Z) (l : list (A * Z)) :
  Permutation (insert_by_count p l) (p :: l).
Proof.
  induction l as [| q l IH]; simpl; [reflexivity |].
  destruct (snd q <=? snd p); [reflexivity |].
  rewrite IH. apply perm_swap.
Qed.

Lemma sort_values_desc_perm (l : list (A * Z)) :
  Permutation (sort_values_desc l) l.
Proof.
  induction l as [| p l IH]; simpl; [reflexivity |].
  rewrite insert_by_count_perm. now constructor.
Qed.

Lemma count_cons (x y : A) (l : list A) :
  count eqb x (y :: l) = (if eqb x y then 1 else 0) + count eqb x l.
Proof.
  unfold count. simpl filter. destruct (eqb x y);
    [simpl length; rewrite Nat2Z.inj_succ |]; lia.
Qed.

Lemma count_nonneg (x : A) (l : list A) : 0 <= count eqb x l.
Proof. unfold count. lia. Qed.

Lemma count_pos (x : A) (l : list A) : In x l -> 0 < count eqb x l.
Proof.
  induction l as [| y l IH]; simpl; [tauto |].
  intros Hin. rewrite count_cons. pose proof (count_nonneg x l).
  destruct (eqb x y) eqn:E; [lia |].
  apply eqb_neq in E. destruct Hin as [-> | Hin]; [congruence |].
  specialize (IH Hin). lia.
Qed.

Lemma count_absent (x : A) (l : list A) : ~ In x l -> count eqb x l = 0.
Proof.
  induction l as [| y l IH]; simpl; [reflexivity |].
  intros Hnot. rewrite count_cons.
  destruct (eqb x y) eqn:E.
  - apply eqb_eq in E. subst. tauto.
  - rewrite IH by tauto. reflexivity.
Qed.

Lemma count_le_length (x : A) (l : list A) :
  count eqb x l <= Z.of_nat (length l).
Proof.
  unfold count. pose proof (filter_length_le (eqb x) l). lia.
Qed.

(** Over labels without repetition, exactly one equals a value among
    them. *)
Lemma sum_indicator (x : A) (cols : list A) :
  NoDup cols -> In x cols ->
  zsum (map (fun f => if eqb f x then 1 else 0) cols) = 1.
Proof.
  induction 1 as [| y cols Hnot Hnd IH]; simpl; [tauto |].
  intros [-> | Hin].
  - rewrite eqb_refl.
    assert (E : zsum (map (fun f => if eqb f x then 1 else 0) cols) = 0).
    { clear IH Hnd. induction cols as [| z cols IHc]; simpl; [reflexivity |].
      simpl in Hnot. destruct (eqb z x) eqn:E.
      - apply eqb_eq in E. tauto.
      - rewrite IHc by tauto. reflexivity. }
    lia.
  - destruct (eqb y x) eqn:E.
    + apply eqb_eq in E. subst. contradiction.
    + rewrite IH by assumption. reflexivity.
Qed.

Lemma zsum_map_add (f g : A -> Z) (l : list A) :
  zsum (map (fun x => f x + g x) l) = zsum (map f l) + zsum (map g l).
Proof.
  induction l as [| x l IH]; simpl; lia.
Qed.

(** The counts of a list over labels that cover it add up to its
    length. *)
Lemma sum_counts (l cols : list A) :
  NoDup cols -> (forall x, In x l -> In x cols) ->
  zsum (map (fun f => count eqb f l) cols) = Z.of_nat (length l).
Proof.
  intros Hnd. induction l as [| x l IH]; intros Hcov.
  - simpl. induction cols as [| c cols IHc]; simpl; [reflexivity |].
    inversion Hnd; subst. rewrite IHc; auto. intros y [].
  - erewrite map_ext by (intros f; apply count_cons).
    rewrite zsum_map_add, sum_indicator, IH.
    + simpl length. lia.
    + intros y Hy. apply Hcov. now right.
    + exact Hnd.
    + apply Hcov. now left.
Qed.

Lemma value_counts_perm (l : list A) :
  Permutation (value_counts eqb l)
              (map (fun x => (x, count eqb x l)) (unique eqb l)).
Proof. apply sort_values_desc_perm. Qed.

Lemma value_counts_In (x : A) (c : Z) (l : list A) :
  In (x, c) (value_counts eqb l) <-> In x l /\ c = count eqb x l.
Proof.
  split.
  - intros Hin. apply (Permutation_in _ (value_counts_perm l)) in Hin.
    apply in_map_iff in Hin. destruct Hin as [y [E Hy]].
    injection E as -> <-. rewrite In_unique in Hy. auto.
  - intros [Hin ->].
    apply (Permutation_in _ (Permutation_sym (value_counts_perm l))).
    apply in_map_iff. exists x. rewrite In_unique. auto.
Qed.

Lemma value_counts_keys (l : list A) :
  Permutation (map fst (value_counts eqb l)) (unique eqb l).
Proof.
  rewrite (Permutation_map fst (value_counts_perm l)), map_map.
  simpl. rewrite map_id. reflexivity.
Qed.

Lemma value_counts_NoDup (l : list A) :
  NoDup (map fst (value_counts eqb l)).
Proof.
  apply (Permutation_NoDup (Permutation_sym (value_counts_keys l))).
  apply NoDup_unique.
Qed.

Lemma In_value_counts_keys (x : A) (l : list A) :
  In x (map fst (value_counts eqb l)) <-> In x l.
Proof.
  split; intros Hin.
  - apply (Permutation_in _ (value_counts_keys l)) in Hin.
    rewrite In_unique in Hin. exact Hin.
  - apply (Permutation_in _ (Permutation_sym (value_counts_keys l))).
    rewrite In_unique. exact Hin.
Qed.

Lemma value_counts_sum (l : list A) :
  zsum (map snd (value_counts eqb l)) = Z.of_nat (length l).
Proof.
  rewrite (zsum_perm (Permutation_map snd (value_counts_perm l))).
  rewrite map_map. simpl. apply sum_counts.
  - apply NoDup_unique.
  - intros x Hx. now apply In_unique.
Qed.

Lemma value_counts_pos (l : list A) :
  Forall (fun p => 0 < snd p) (value_counts eqb l).
Proof.
  apply Forall_forall. intros [x c] Hin. apply value_counts_In in Hin.
  destruct Hin as [Hin ->]. simpl. now apply count_pos.
Qed.

Lemma lookup_In (x : A) (c : Z) (s : list (A * Z)) :
  NoDup (map fst s) -> In (x, c) s -> lookup eqb x s = Some c.
Proof.
  induction s as [| [y d] s IH]; simpl; [tauto |].
  intros Hnd Hin. inversion Hnd as [| ? ? Hnot Hnd']; subst.
  destruct Hin as [E | Hin].
  - injection E as -> ->. now rewrite eqb_refl.
  - destruct (eqb x y) eqn:E.
    + apply eqb_eq in E. subst. exfalso. apply Hnot.
      apply in_map_iff. exists (y, c). auto.
    + auto.
Qed.

Lemma lookup_absent (x : A) (s : list (A * Z)) :
  ~ In x (map fst s) -> lookup eqb x s = None.
Proof.
  induction s as [| [y d] s IH]; simpl; [reflexivity |].
  intros Hnot. destruct (eqb x y) eqn:E.
  - apply eqb_eq in E. subst. tauto.
  - apply IH. tauto.
Qed.

Variable dec : forall x y : A, {x = y} + {x <> y}.

(** Looking a label up in [value_counts], with 0 for a missing label,
    counts the label. *)
Lemma lookup_value_counts (x : A) (l : list A) :
  match lookup eqb x (value_counts eqb l) with
  | Some z => z
  | None => 0
  end = count eqb x l.
Proof.
  destruct (in_dec dec x l) as [Hin | Hnot].
  - rewrite (@lookup_In x (count eqb x l)).
    + reflexivity.
    + apply value_counts_NoDup.
    + apply value_counts_In. auto.
  - rewrite lookup_absent.
    + symmetry. now apply count_absent.
    + now rewrite In_value_counts_keys.
Qed.
End ListFacts.

(** * Facts about frames: rows, columns, sorting *)

Section Transpose.
Variable A : Type.



Lemma length_transpose (n : nat) (cols : list (list A)) :
  Forall (fun c => length c = n) cols -> length (transpose n cols) = n.
Proof.
  induction 1 as [| c cs Hc Hcs IH]; simpl.
  - apply repeat_length.
  - rewrite length_map, length_combine, IH, Hc. apply Nat.min_id.
Qed.

Lemma transpose_row_length (n : nat) (cols : list (list A)) :
  Forall (fun r => length r = length cols) (transpose n cols).
Proof.
  induction cols as [| c cs IH]; simpl.
  - apply Forall_forall. intros r Hr. apply repeat_spec in Hr. now subst.
  - apply Forall_forall. intros r Hr. apply in_map_iff in Hr.
    destruct Hr as [[x r'] [<- Hin]]. simpl. f_equal.
    apply in_combine_r in Hin. rewrite Forall_forall in IH. auto.
Qed.


Lemma nth_error_combine_inv (B : Type) (l1 : list A) (l2 : list B)
    (i : nat) (x : A) (y : B) :
  nth_error (combine l1 l2) i = Some (x, y) ->
  nth_error l1 i = Some x /\ nth_error l2 i = Some y.
Proof.
  revert l2 i. induction l1 as [| a l1 IH]; intros [| b l2] [| i] E;
    simpl in *; try discriminate.
  - injection E as -> ->. auto.
  - auto.
Qed.

(** Row [i] holds, at position [j], entry [i] of column [j]. *)
Lemma transpose_cells (n : nat) (cols : list (list A)) (i : nat)
    (row : list A) :
  nth_error (transpose n cols) i = Some row ->
  forall j, nth_error row j
            = match nth_error cols j with
              | Some c => nth_error c i
              | None => None
              end.
Proof.
  revert row. induction cols as [| c cs IH]; intros row Hrow j.
  - simpl in Hrow. apply nth_error_In, repeat_spec in Hrow. subst.
    now destruct j.
  - simpl in Hrow. rewrite nth_error_map in Hrow.
    destruct (nth_error (combine c (transpose n cs)) i) as [[x r] |] eqn:E;
      [| discriminate].
    injection Hrow as <-. apply nth_error_combine_inv in E.
    destruct E as [Hx Hr]. destruct j as [| j]; simpl.
    + now rewrite Hx.
    + now apply IH.
Qed.

Lemma transpose_single (c : list A) :
  transpose (length c) [c] = map (fun x => [x]) c.
Proof.
  simpl. induction c as [| x c IH]; simpl; [reflexivity |].
  now rewrite IH.
Qed.

Lemma length_filter_mask (f : list A -> bool) (rows : list (list A)) :
  length (map snd (filter fst (combine (map f rows) rows)))
  = length (filter f rows).
Proof.
  induction rows as [| r rows IH]; simpl; [reflexivity |].
  destruct (f r); simpl; now rewrite IH.
Qed.

Lemma filter_nil (f : A -> bool) (l : list A) :
  (forall x, In x l -> f x = false) -> filter f l = [].
Proof.
  induction l as [| x l IH]; simpl; [reflexivity |].
  intros Hall. rewrite (Hall x) by now left. apply IH. auto.
Qed.
End Transpose.

Section FrameFacts.
Context {F : Type} {HF : Face F}.

Lemma iterrows_length (df : DataFrame F) :
  rectangular df -> length (iterrows df) = nrows df.
Proof. apply length_transpose. Qed.

Lemma iterrows_row_length (df : DataFrame F) :
  Forall (fun r => length r = ncols df) (iterrows df).
Proof. apply transpose_row_length. Qed.

(** Roll [i] shows, at die [j], the cell of the frame at [i] and [j]. *)
Lemma iterrows_cells (df : DataFrame F) (i : nat) (row : list F) :
  nth_error (iterrows df) i = Some row ->
  forall j, nth_error row j = cell df i j.
Proof. apply transpose_cells. Qed.

Lemma iterrows_no_columns (df : DataFrame F) :
  ncols df = O -> iterrows df = [].
Proof.
  unfold ncols, iterrows, nrows. destruct (columns df); [reflexivity |].
  discriminate.
Qed.


Lemma pd_DataFrame_rectangular (outcomes : list (list F)) (df : DataFrame F) :
  pd_DataFrame outcomes = Return df ->
  columns df = outcomes /\ index_name df = None /\ rectangular df.
Proof.
  unfold pd_DataFrame. destruct outcomes as [| c cs].
  - intros E. injection E as <-. repeat split. constructor.
  - destruct (forallb _ cs) eqn:Hall; [| discriminate].
    intros E. injection E as <-. repeat split.
    unfold rectangular, nrows. simpl. constructor; [reflexivity |].
    rewrite forallb_forall in Hall. apply Forall_forall.
    intros c' Hc'. apply Nat.eqb_eq. auto.
Qed.

(** A row of one or more dice has one distinct face exactly when all its
    positions show the same face. *)
Lemma nunique_one (row : list F) :
  row <> [] -> Nat.eqb (nunique row) 1 = all_equal row.
Proof.
  destruct row as [| x row]; [congruence |]. intros _.
  unfold nunique. simpl.
  destruct (forallb (face_eqb x) row) eqn:Hall.
  - rewrite filter_nil; [reflexivity |].
    intros y Hy. rewrite (In_unique face_eqb face_eqb_eq) in Hy.
    rewrite forallb_forall in Hall. rewrite Hall by assumption. reflexivity.
  - assert (Hex : exists y, In y row /\ face_eqb x y = false).
    { clear -Hall. induction row as [| y row IH]; simpl in *; [discriminate |].
      destruct (face_eqb x y) eqn:E.
      - destruct IH as [z [Hz Ez]]; [assumption |]. exists z. auto.
      - exists y. auto. }
    destruct Hex as [y [Hy Ey]].
    assert (Hin : In y (filter (fun y => negb (face_eqb x y))
                               (unique face_eqb row))).
    { apply filter_In. rewrite (In_unique face_eqb face_eqb_eq), Ey. auto. }
    destruct (filter _ (unique face_eqb row)); [destruct Hin | reflexivity].
Qed.

Lemma all_equal_spec (row : list F) :
  all_equal row = true <-> forall x y, In x row -> In y row -> x = y.
Proof.
  destruct row as [| z row]; simpl.
  - split; [intros _ x y [] | reflexivity].
  - rewrite forallb_forall. split.
    + intros Hall x y Hx Hy.
      assert (E : forall u, z = u \/ In u row -> z = u).
      { intros u [-> | Hu]; [reflexivity |]. apply face_eqb_eq. now apply Hall. }
      rewrite <- (E x Hx), <- (E y Hy). reflexivity.
    + intros Hall u Hu. apply face_eqb_eq. apply Hall; auto.
Qed.

(** *** [sorted] *)

Lemma face_le_refl (x : F) : face_le x x.
Proof. apply face_ltb_irrefl. Qed.

Lemma face_le_antisym (x y : F) : face_le x y -> face_le y x -> x = y.
Proof.
  unfold face_le. intros Hxy Hyx.
  destruct (face_ltb_total x y) as [H | [H | H]]; congruence.
Qed.

Lemma face_le_trans (x y z : F) : face_le x y -> face_le y z -> face_le x z.
Proof.
  unfold face_le. intros Hxy Hyz.
  destruct (face_ltb z x) eqn:Hzx; [| reflexivity].
  destruct (face_ltb_total x y) as [H | [H | H]].
  - rewrite (face_ltb_trans _ _ _ Hzx H) in Hyz. discriminate.
  - subst. congruence.
  - congruence.
Qed.

Lemma face_le_total (x y : F) : face_le x y \/ face_le y x.
Proof.
  unfold face_le. destruct (face_ltb y x) eqn:Hyx; [| now left].
  right. destruct (face_ltb x y) eqn:Hxy; [| reflexivity].
  pose proof (face_ltb_trans _ _ _ Hxy Hyx) as Hxx.
  rewrite face_ltb_irrefl in Hxx. discriminate.
Qed.

Lemma insert_face_perm (x : F) (l : list F) :
  Permutation (insert_face x l) (x :: l).
Proof.
  induction l as [| y l IH]; simpl; [reflexivity |].
  destruct (face_ltb y x); [| reflexivity].
  rewrite IH. apply perm_swap.
Qed.

Lemma sorted_perm (l : list F) : Permutation (sorted l) l.
Proof.
  induction l as [| x l IH]; simpl; [reflexivity |].
  rewrite insert_face_perm. now constructor.
Qed.

Lemma insert_face_ascending (x : F) (l : list F) :
  ascending l -> ascending (insert_face x l).
Proof.
  induction l as [| y l IH]; simpl; [auto |].
  intros [Hy Hl]. destruct (face_ltb y x) eqn:Hyx; simpl.
  - split; [| auto].
    apply Forall_forall. intros z Hz.
    apply (Permutation_in _ (insert_face_perm x l)) in Hz.
    destruct Hz as [<- | Hz].
    + destruct (face_le_total y x) as [H | H]; [assumption |].
      unfold face_le in H. congruence.
    + rewrite Forall_forall in Hy. auto.
  - repeat split; [| assumption | assumption].
    constructor; [exact Hyx |].
    apply Forall_forall. intros z Hz. rewrite Forall_forall in Hy.
    apply face_le_trans with y; [exact Hyx | auto].
Qed.

Lemma sorted_ascending (l : list F) : ascending (sorted l).
Proof.
  induction l as [| x l IH]; simpl; [exact I |].
  now apply insert_face_ascending.
Qed.

Lemma ascending_perm_eq (l1 l2 : list F) :
  ascending l1 -> ascending l2 -> Permutation l1 l2 -> l1 = l2.
Proof.
  revert l2. induction l1 as [| x l1 IH]; intros l2 H1 H2 Hp.
  - apply Permutation_nil in Hp. now subst.
  - destruct l2 as [| y l2].
    + apply Permutation_sym, Permutation_nil in Hp. discriminate.
    + simpl in H1, H2. destruct H1 as [Hx H1], H2 as [Hy H2].
      assert (E : x = y).
      { apply face_le_antisym.
        - assert (Hin : In y (x :: l1))
            by (apply (Permutation_in _ (Permutation_sym Hp)); now left).
          destruct Hin as [-> | Hin]; [apply face_le_refl |].
          rewrite Forall_forall in Hx. auto.
        - assert (Hin : In x (y :: l2))
            by (apply (Permutation_in _ Hp); now left).
          destruct Hin as [-> | Hin]; [apply face_le_refl |].
          rewrite Forall_forall in Hy. auto. }
      subst y. f_equal. apply IH; auto.
      now apply Permutation_cons_inv in Hp.
Qed.

(** Two rows have the same sorted tuple exactly when they hold the same
    faces the same number of times. *)
Lemma sorted_eq_iff_perm (l1 l2 : list F) :
  sorted l1 = sorted l2 <-> Permutation l1 l2.
Proof.
  split.
  - intros E. rewrite <- (sorted_perm l1), E. apply sorted_perm.
  - intros Hp. apply ascending_perm_eq; try apply sorted_ascending.
    rewrite (sorted_perm l1), (sorted_perm l2). exact Hp.
Qed.
End FrameFacts.

(** * Rolling a die *)

Lemma random_samples_length (n : nat) (rs : RandomState) :
  length (fst (random_samples n rs)) = n.
Proof.
  revert rs. induction n as [| n IH]; intros rs; simpl; [reflexivity |].
  specialize (IH {| stream := stream rs; pos := S (pos rs) |}).
  destruct (random_samples n _) as [us rs2]. simpl in *. now rewrite IH.
Qed.

Lemma take_returns (F : Type) (a : list F) (idx : list nat) (xs : list F) :
  take a idx = Return xs ->
  length xs = length idx /\ Forall (fun x => In x a) xs.
Proof.
  revert xs. induction idx as [| i idx IH]; intros xs; simpl.
  - intros E. injection E as <-. auto.
  - destruct (nth_error a i) as [x |] eqn:Hi; [| discriminate].
    destruct (take a idx) as [ys | |]; try discriminate.
    intros E. injection E as <-. destruct (IH ys eq_refl) as [Hlen Hall].
    split; [simpl; congruence |].
    constructor; [| assumption]. eapply nth_error_In; eauto.
Qed.

(** What [np.random.choice] returns when it returns. *)
Lemma choice_returns (F : Type) (a : list F) (size : Z) (p : list float64)
    (rs rs' : RandomState) (xs : list F) :
  choice a size p rs = (Return xs, rs') ->
  0 <= size /\ length xs = Z.to_nat size /\ Forall (fun x => In x a) xs.
Proof.
  unfold choice.
  destruct (_ && _); [discriminate |].
  destruct (negb _); [discriminate |].
  destruct (isnan _); [discriminate |].
  destruct (existsb _ _); [discriminate |].
  destruct (fltb atol _); [discriminate |].
  destruct (last_opt _); [| discriminate].
  destruct (size <? 0) eqn:Hneg; [discriminate |].
  pose proof (random_samples_length (Z.to_nat size) rs) as Hlen.
  destruct (random_samples _ rs) as [us rs2]. simpl in Hlen.
  intros E. injection E as Htake _. apply take_returns in Htake.
  destruct Htake as [Hl Hall]. rewrite length_map in Hl.
  apply Z.ltb_ge in Hneg. repeat split; [assumption | congruence | assumption].
Qed.

(** *** When [choice] raises *)

Lemma last_opt_cumsum_from (acc : float64) (p : list float64) :
  p <> [] -> last_opt (cumsum_from acc p) = Some (fold_left fadd p acc).
Proof.
  revert acc. induction p as [| x p IH]; intros acc Hne; [congruence |].
  destruct p as [| y p]; [reflexivity |].
  change (last_opt (cumsum_from acc (x :: y :: p)))
    with (last_opt (cumsum_from (fadd acc x) (y :: p))).
  rewrite IH by discriminate. reflexivity.
Qed.

Lemma last_opt_cumsum (p : list float64) :
  p <> [] -> last_opt (cumsum p) = Some (kahan_sum p).
Proof. apply last_opt_cumsum_from. Qed.

Lemma empty_p_rejected :
  fltb atol (fabs (fsub (kahan_sum []) (Finite 1))) = true.
Proof. reflexivity. Qed.

(** A negative size never returns: the check of the shape raises when no
    earlier check did. *)
Lemma choice_negative (F : Type) (a : list F) (size : Z) (p : list float64)
    (rs : RandomState) :
  size < 0 -> exists msg, choice a size p rs = (Raise (ValueError msg), rs).
Proof.
  intros Hneg. unfold choice.
  destruct (_ && _); [eauto |].
  destruct (negb _); [eauto |].
  destruct (isnan _); [eauto |].
  destruct (existsb _ _); [eauto |].
  destruct p as [| x p].
  - rewrite empty_p_rejected. eauto.
  - destruct (fltb atol _); [eauto |].
    rewrite last_opt_cumsum by discriminate.
    apply Z.ltb_lt in Hneg. rewrite Hneg. eauto.
Qed.

Lemma fadd_not_finite (x y : float64) :
  is_finite x = false \/ is_finite y = false -> is_finite (fadd x y) = false.
Proof.
  destruct x, y; simpl; intros [E | E]; congruence.
Qed.

Lemma fold_fadd_not_finite (p : list float64) (acc : float64) :
  is_finite acc = false \/ (exists x, In x p /\ is_finite x = false) ->
  is_finite (fold_left fadd p acc) = false.
Proof.
  revert acc. induction p as [| y p IH]; intros acc; simpl.
  - intros [E | [x [[] _]]]. exact E.
  - intros [E | [x [[-> | Hin] Hx]]]; apply IH.
    + left. apply fadd_not_finite. auto.
    + left. apply fadd_not_finite. auto.
    + right. eauto.
Qed.

(** A probability vector whose sum is not finite is rejected. *)
Lemma choice_sum_not_finite (F : Type) (a : list F) (size : Z)
    (p : list float64) (rs : RandomState) :
  is_finite (kahan_sum p) = false ->
  exists msg, choice a size p rs = (Raise (ValueError msg), rs).
Proof.
  intros Hsum. unfold choice.
  destruct (_ && _); [eauto |].
  destruct (negb _); [eauto |].
  destruct (kahan_sum p); simpl in *; try discriminate; eauto;
    destruct (existsb _ _); eauto.
Qed.

(** Dividing by a zero sum leaves no finite entry. *)
Lemma fdiv_zero_not_finite (x : float64) (s : Q) :
  Qeq_bool s 0 = true -> is_finite (fdiv x (Finite s)) = false.
Proof.
  intros Hs. destruct x; simpl; try reflexivity.
  - rewrite Hs. destruct (Qeq_bool q 0); [reflexivity |].
    destruct (Qltb q 0); reflexivity.
  - destruct (Qltb s 0); reflexivity.
  - destruct (Qltb s 0); reflexivity.
Qed.

(** *** When [choice] returns *)

Lemma Qltb_true (x y : Q) : (x < y)%Q -> Qltb x y = true.
Proof.
  intros Hlt. unfold Qltb. destruct (Qle_bool y x) eqn:E; [| reflexivity].
  apply Qle_bool_iff in E. exfalso. now apply (Qlt_not_le x y).
Qed.

Lemma Qltb_false (x y : Q) : (y <= x)%Q -> Qltb x y = false.
Proof.
  intros Hle. unfold Qltb. apply Qle_bool_iff in Hle. now rewrite Hle.
Qed.

Lemma Qltb_lt (x y : Q) : Qltb x y = true -> (x < y)%Q.
Proof.
  unfold Qltb. intros E. apply negb_true_iff in E.
  apply Qnot_le_lt. intros Hle. apply Qle_bool_iff in Hle. congruence.
Qed.

Lemma Qeq_bool_false (x y : Q) : ~ (x == y)%Q -> Qeq_bool x y = false.
Proof.
  intros Hne. destruct (Qeq_bool x y) eqn:E; [| reflexivity].
  apply Qeq_bool_iff in E. contradiction.
Qed.

Lemma fold_Qplus_proper (l : list Q) (a a' : Q) :
  (a == a')%Q -> (fold_left Qplus l a == fold_left Qplus l a')%Q.
Proof.
  revert a a'. induction l as [| x l IH]; intros a a' E; simpl; [exact E |].
  apply IH. now rewrite E.
Qed.

Lemma fold_Qplus_div (qs : list Q) (s a : Q) :
  ~ (s == 0)%Q ->
  (fold_left Qplus (map (fun q => q / s) qs) (a / s)
   == fold_left Qplus qs a / s)%Q.
Proof.
  intros Hs. revert a. induction qs as [| q qs IH]; intros a; simpl.
  - reflexivity.
  - rewrite <- IH. apply fold_Qplus_proper. field. exact Hs.
Qed.

Lemma fold_Qplus_nonneg (qs : list Q) (a : Q) :
  (0 <= a)%Q -> Forall (fun q => (0 <= q)%Q) qs ->
  (a <= fold_left Qplus qs a)%Q.
Proof.
  intros Ha Hqs. revert a Ha. induction Hqs as [| q qs Hq Hqs IH];
    intros a Ha; simpl.
  - apply Qle_refl.
  - apply Qle_trans with (a + q)%Q.
    + rewrite <- (Qplus_0_r a) at 1. apply Qplus_le_r. exact Hq.
    + apply IH. rewrite <- (Qplus_0_r 0). now apply Qplus_le_compat.
Qed.

Lemma fold_fadd_finite (qs : list Q) (acc : Q) :
  fold_left fadd (map Finite qs) (Finite acc)
  = Finite (fold_left Qplus qs acc).
Proof.
  revert acc. induction qs as [| q qs IH]; intros acc; simpl; [reflexivity |].
  apply IH.
Qed.

Lemma filter_notnan_finite (qs : list Q) :
  filter (fun x => negb (isnan x)) (map Finite qs) = map Finite qs.
Proof.
  induction qs as [| q qs IH]; simpl; [reflexivity |]. now rewrite IH.
Qed.

Lemma nonneg_weights_finite (ws : list float64) :
  forallb nonneg_weight ws = true ->
  exists qs, ws = map Finite qs /\ Forall (fun q => (0 <= q)%Q) qs.
Proof.
  induction ws as [| x ws IH]; simpl.
  - exists []. auto.
  - intros E. apply andb_true_iff in E. destruct E as [Hx Hws].
    destruct (IH Hws) as [qs [-> Hqs]].
    destruct x as [q | | |]; try discriminate.
    exists (q :: qs). split; [reflexivity |].
    constructor; [| assumption]. now apply Qle_bool_iff.
Qed.

Lemma cumsum_from_finite (ps : list Q) (acc : Q) :
  exists cs, cumsum_from (Finite acc) (map Finite ps) = map Finite cs
             /\ length cs = length ps.
Proof.
  revert acc. induction ps as [| p ps IH]; intros acc; simpl.
  - exists []. auto.
  - destruct (IH (acc + p)%Q) as [cs [E Hlen]].
    exists ((acc + p)%Q :: cs). simpl. rewrite E. auto.
Qed.

Lemma last_opt_map (A B : Type) (f : A -> B) (l : list A) :
  last_opt (map f l) = option_map f (last_opt l).
Proof.
  induction l as [| x l IH]; [reflexivity |].
  destruct l as [| y l]; [reflexivity |].
  change (last_opt (map f (x :: y :: l))) with (last_opt (map f (y :: l))).
  rewrite IH. reflexivity.
Qed.

(** Below the last entry of the table, the search stays inside it. *)
Lemma searchsorted_right_bound (cdf : list float64) (u top : float64) :
  last_opt cdf = Some top -> fltb u top = true ->
  (searchsorted_right cdf u < length cdf)%nat.
Proof.
  induction cdf as [| c cdf IH]; [discriminate |].
  intros Hlast Htop. simpl searchsorted_right.
  destruct (fltb u c) eqn:Huc; [simpl; lia |].
  destruct cdf as [| c' cdf].
  - simpl in Hlast. injection Hlast as ->. congruence.
  - specialize (IH Hlast Htop). simpl length in *. lia.
Qed.

Lemma take_total (F : Type) (a : list F) (idx : list nat) :
  Forall (fun i => (i < length a)%nat) idx -> exists xs, take a idx = Return xs.
Proof.
  induction 1 as [| i idx Hi Hidx IH]; simpl; [eauto |].
  destruct (nth_error a i) as [x |] eqn:E.
  - destruct IH as [xs ->]. eauto.
  - apply nth_error_None in E. lia.
Qed.

Lemma next_double_range (rs : RandomState) :
  (0 <= fst (next_double rs) /\ fst (next_double rs) < 1)%Q.
Proof.
  unfold next_double, Qle, Qlt. simpl fst. simpl Qnum. simpl Qden.
  pose proof (Z.mod_pos_bound (stream rs (pos rs)) two53 eq_refl) as Hb.
  unfold two53 in *. lia.
Qed.

Lemma random_samples_range (n : nat) (rs : RandomState) :
  Forall (fun u => (0 <= u /\ u < 1)%Q) (fst (random_samples n rs)).
Proof.
  revert rs. induction n as [| n IH]; intros rs; simpl; [constructor |].
  specialize (IH {| stream := stream rs; pos := S (pos rs) |}).
  destruct (random_samples n _) as [us rs2]. simpl in *.
  constructor; [| exact IH]. apply (next_double_range rs).
Qed.

(** A vector of finite, non-negative probabilities that sum to 1 is
    accepted, and every draw lands on an entry of [a]. *)
Lemma choice_probabilities (F : Type) (a : list F) (size : Z) (ps : list Q)
    (rs : RandomState) :
  length ps = length a -> ps <> [] ->
  Forall (fun q => (0 <= q)%Q) ps ->
  (fold_left Qplus ps 0 == 1)%Q ->
  0 <= size ->
  exists xs rs', choice a size (map Finite ps) rs = (Return xs, rs').
Proof.
  intros Hlen Hne Hpos Hsum Hsize. unfold choice.
  assert (Ha : Nat.eqb (length a) 0 = false).
  { apply Nat.eqb_neq. destruct ps; [congruence |]. simpl in Hlen. lia. }
  rewrite Ha. simpl andb. rewrite length_map, Hlen, Nat.eqb_refl. simpl negb.
  unfold kahan_sum. rewrite fold_fadd_finite. simpl isnan.
  set (t := fold_left Qplus ps 0%Q) in *.
  assert (Hneg : existsb (fun x => fltb x (Finite 0)) (map Finite ps) = false).
  { clear -Hpos. induction Hpos as [| q ps Hq _ IH]; simpl; [reflexivity |].
    rewrite IH, Qltb_false by assumption. reflexivity. }
  rewrite Hneg.
  assert (Htol : fltb atol (fabs (fsub (Finite t) (Finite 1))) = false).
  { simpl. apply Qltb_false.
    assert (E : (Qabs (t - 1) == 0)%Q).
    { rewrite Hsum. reflexivity. }
    rewrite E. discriminate. }
  rewrite Htol.
  assert (Hmne : map Finite ps <> []) by (destruct ps; [congruence | discriminate]).
  rewrite (last_opt_cumsum Hmne). unfold kahan_sum.
  rewrite fold_fadd_finite. fold t.
  apply Z.ltb_ge in Hsize. rewrite Hsize.
  pose proof (random_samples_range (Z.to_nat size) rs) as Hus.
  destruct (random_samples (Z.to_nat size) rs) as [us rs2]. simpl in Hus.
  destruct (cumsum_from_finite ps 0%Q) as [cs [Ecs Hcs]].
  fold (cumsum (map Finite ps)) in Ecs.
  assert (Ht0 : ~ (t == 0)%Q).
  { rewrite Hsum. discriminate. }
  assert (Ecdf : map (fun c => fdiv c (Finite t)) (cumsum (map Finite ps))
                 = map (fun c => Finite (c / t)) cs).
  { rewrite Ecs, map_map. apply map_ext. intros c. simpl.
    now rewrite (Qeq_bool_false Ht0). }
  rewrite Ecdf.
  assert (Hlast : last_opt (map (fun c => Finite (c / t)) cs)
                  = Some (Finite (t / t))).
  { rewrite last_opt_map.
    assert (E : last_opt (map Finite cs) = Some (Finite t)).
    { rewrite <- Ecs, (last_opt_cumsum Hmne). unfold kahan_sum.
      now rewrite fold_fadd_finite. }
    rewrite last_opt_map in E. destruct (last_opt cs) as [c |];
      [| discriminate]. simpl in *. injection E as ->. reflexivity. }
  destruct (@take_total F a
              (map (fun u => searchsorted_right
                               (map (fun c => Finite (c / t)) cs) (Finite u))
                   us)) as [xs Hxs].
  { apply Forall_forall. intros i Hi. apply in_map_iff in Hi.
    destruct Hi as [u [<- Hu]]. rewrite Forall_forall in Hus.
    destruct (Hus u Hu) as [_ Hu1].
    pose proof (searchsorted_right_bound _ (Finite u) Hlast) as Hb.
    rewrite length_map, Hcs, Hlen in Hb. apply Hb.
    simpl. apply Qltb_true.
    assert (E : (t / t == 1)%Q) by (field; exact Ht0).
    now rewrite E. }
  rewrite Hxs. eauto.
Qed.

(** * The methods, one by one *)

Section Methods.
Context {F : Type} {HF : Face F}.

Lemma same_objects_refl (w : World F) : same_objects w w.
Proof. repeat split. Qed.

Lemma same_objects_trans (w1 w2 w3 : World F) :
  same_objects w1 w2 -> same_objects w2 w3 -> same_objects w1 w3.
Proof.
  unfold same_objects. intros [? [? ?]] [? [? ?]]. repeat split; congruence.
Qed.

Lemma bind_returns (A B : Type) (m : M F A) (k : A -> M F B)
    (w w' : World F) (b : B) :
  bind m k w = (Return b, w') ->
  exists a w1, m w = (Return a, w1) /\ k a w1 = (Return b, w').
Proof.
  unfold bind. destruct (m w) as [[a | e |] w1]; try discriminate. eauto.
Qed.

(** *** Die *)

Lemma roll_objects (d : nat) (n : Z) (w w' : World F) (o : outcome (list F)) :
  roll d n w = (o, w') -> same_objects w w'.
Proof.
  unfold roll, bind, get_die, np_random_choice.
  destruct (nth_error (dies w) d) as [D |].
  - destruct (choice _ _ _ _) as [o' rs]. intros E. injection E as _ <-.
    repeat split.
  - intros E. injection E as _ <-. repeat split.
Qed.

Lemma roll_returns (d : nat) (n : Z) (w w' : World F) (xs : list F) :
  roll d n w = (Return xs, w') ->
  exists D, nth_error (dies w) d = Some D /\ 0 <= n /\
            length xs = Z.to_nat n /\
            Forall (fun x => In x (map fst (die D))) xs.
Proof.
  unfold roll, bind, get_die, np_random_choice.
  destruct (nth_error (dies w) d) as [D |]; [| discriminate].
  destruct (choice _ _ _ _) as [o rs] eqn:Hc. intros E.
  injection E as -> _. apply choice_returns in Hc. eauto.
Qed.

Lemma roll_negative (d : nat) (n : Z) (w : World F) (D : Die F) :
  nth_error (dies w) d = Some D -> n < 0 ->
  exists msg, fst (roll d n w) = Raise (ValueError msg).
Proof.
  intros Hd Hn. unfold roll, bind, get_die, np_random_choice. rewrite Hd.
  destruct (choice_negative (map fst (die D))
              (map (fun x => fdiv x (series_sum (map snd (die D))))
                   (map snd (die D))) (rng w) Hn) as [msg ->].
  simpl. eauto.
Qed.

(** Weights that sum to zero: every probability is NaN or infinite and
    numpy rejects the vector. *)
Lemma roll_zero_sum (d : nat) (n : Z) (w : World F) (D : Die F) (s : Q) :
  nth_error (dies w) d = Some D ->
  series_sum (map snd (die D)) = Finite s -> (s == 0)%Q ->
  exists msg, fst (roll d n w) = Raise (ValueError msg).
Proof.
  intros Hd Hs Hz. unfold roll, bind, get_die, np_random_choice. rewrite Hd.
  rewrite Hs. apply Qeq_bool_iff in Hz.
  set (p := map (fun x => fdiv x (Finite s)) (map snd (die D))).
  destruct (map snd (die D)) as [| x ws] eqn:Ews.
  - unfold choice. simpl.
    destruct (_ && _); [simpl; eauto |].
    destruct (negb _); simpl; eauto.
  - destruct (@choice_sum_not_finite F (map fst (die D)) n p (rng w))
      as [msg ->]; [| simpl; eauto].
    apply fold_fadd_not_finite. right.
    exists (fdiv x (Finite s)). split; [now left |].
    now apply fdiv_zero_not_finite.
Qed.

Lemma rollable_weights (D : Die F) :
  rollable D = true ->
  exists qs, map snd (die D) = map Finite qs /\
             Forall (fun q => (0 <= q)%Q) qs /\
             (0 < fold_left Qplus qs 0)%Q.
Proof.
  unfold rollable. intros E. apply andb_true_iff in E.
  destruct E as [Hnn Hpos].
  destruct (nonneg_weights_finite _ Hnn) as [qs [Eqs Hqs]].
  exists qs. repeat split; try assumption.
  rewrite Eqs in Hpos. unfold series_sum in Hpos.
  rewrite filter_notnan_finite, fold_fadd_finite in Hpos.
  now apply Qltb_lt in Hpos.
Qed.

(** A die of finite, non-negative weights with a positive sum can be
    rolled any number of times. *)
Lemma roll_rollable (d : nat) (n : Z) (w : World F) (D : Die F) :
  nth_error (dies w) d = Some D -> rollable D = true -> 0 <= n ->
  exists xs w', roll d n w = (Return xs, w').
Proof.
  intros Hd Hroll Hn. unfold roll, bind, get_die, np_random_choice.
  rewrite Hd. destruct (rollable_weights D Hroll) as [qs [Eqs [Hqs Hpos]]].
  rewrite Eqs. unfold series_sum.
  rewrite filter_notnan_finite, fold_fadd_finite.
  set (s := fold_left Qplus qs 0%Q) in *.
  assert (Hs : ~ (s == 0)%Q).
  { intros E. rewrite E in Hpos. discriminate. }
  assert (Ep : map (fun x => fdiv x (Finite s)) (map Finite qs)
               = map Finite (map (fun q => (q / s)%Q) qs)).
  { rewrite !map_map. apply map_ext. intros q. simpl.
    now rewrite (Qeq_bool_false Hs). }
  rewrite Ep.
  destruct (@choice_probabilities F (map fst (die D)) n
              (map (fun q => (q / s)%Q) qs) (rng w)) as [xs [rs' Hc]].
  - rewrite !length_map.
    rewrite <- (length_map snd (die D)), Eqs. now rewrite length_map.
  - destruct qs as [| q qs]; [| discriminate].
    exfalso. apply Hs. reflexivity.
  - apply Forall_forall. intros p Hp. apply in_map_iff in Hp.
    destruct Hp as [q [<- Hq]]. rewrite Forall_forall in Hqs.
    apply Qle_shift_div_l; [exact Hpos |]. rewrite Qmult_0_l. auto.
  - assert (E0 : (0 == 0 / s)%Q) by (field; exact Hs).
    rewrite (fold_Qplus_proper _ E0), (fold_Qplus_div qs 0 Hs).
    fold s. field. exact Hs.
  - exact Hn.
  - rewrite Hc. eauto.
Qed.

(** [__init__] looks at the class of [faces] and at nothing else: any
    list or array makes a die, every weight 1.0. *)
Lemma Die_init_list (l : list F) (w : World F) :
  Die_init (PyList l) w
  = (Return (length (dies w)),
     {| dies := dies w ++ [{| die := map (fun f => (f, Finite 1)) l |}];
        games := games w; frames := frames w; rng := rng w |}).
Proof. reflexivity. Qed.

Lemma Die_init_ndarray (l : list F) (w : World F) :
  Die_init (PyNdarray l) w
  = (Return (length (dies w)),
     {| dies := dies w ++ [{| die := map (fun f => (f, Finite 1)) l |}];
        games := games w; frames := frames w; rng := rng w |}).
Proof. reflexivity. Qed.

Lemma Die_init_other (w : World F) :
  Die_init PyOther w
  = (Raise (TypeError "Faces must be a list or numpy array."), w).
Proof. reflexivity. Qed.

Lemma Die_init_weights (l : list F) :
  Forall (fun r => snd r = Finite 1) (map (fun f : F => (f, Finite 1)) l).
Proof.
  apply Forall_forall. intros r Hr. apply in_map_iff in Hr.
  destruct Hr as [f [<- _]]. reflexivity.
Qed.

(** A face the die does not have: [ValueError], and the world is as it
    was. *)
Lemma change_weight_absent (d : nat) (D : Die F) (face : F)
    (new_weight : float64) (w : World F) :
  nth_error (dies w) d = Some D -> ~ In face (map fst (die D)) ->
  change_weight d face new_weight w
  = (Raise (ValueError
              (String.append "Face "
                 (String.append (face_str face) " does not exist."))), w).
Proof.
  intros Hd Hnot. unfold change_weight, bind, get_die. rewrite Hd.
  assert (E : existsb (fun f => face_eqb f face) (map fst (die D)) = false).
  { destruct (existsb _ _) eqn:E; [| reflexivity].
    apply existsb_exists in E. destruct E as [f [Hf Ef]].
    apply face_eqb_eq in Ef. subst. contradiction. }
  rewrite E. reflexivity.
Qed.

Lemma loc_set_weight_faces (face : F) (new_weight : float64)
    (t : list (F * float64)) :
  map fst (loc_set_weight face new_weight t) = map fst t.
Proof.
  unfold loc_set_weight. rewrite map_map. apply map_ext. intros [f x].
  simpl. now destruct (face_eqb f face).
Qed.


(** A face the die has: the call returns whatever the weight is, the
    rows of that face take it and every other row is as it was. *)
Lemma change_weight_present (d : nat) (D : Die F) (face : F)
    (new_weight : float64) (w : World F) :
  nth_error (dies w) d = Some D -> In face (map fst (die D)) ->
  change_weight d face new_weight w
  = (Return tt,
     {| dies := set_nth d {| die := loc_set_weight face new_weight (die D) |}
                        (dies w);
        games := games w; frames := frames w; rng := rng w |}).
Proof.
  intros Hd Hin. unfold change_weight, bind, get_die, put_die. rewrite Hd.
  assert (E : existsb (fun f => face_eqb f face) (map fst (die D)) = true).
  { apply existsb_exists. exists face. split; [assumption |].
    now apply face_eqb_eq. }
  rewrite E. reflexivity.
Qed.


(** *** Game *)

Lemma roll_each_objects (ds : list nat) (n : Z) (w w' : World F)
    (o : outcome (list (list F))) :
  roll_each ds n w = (o, w') -> same_objects w w'.
Proof.
  revert w o. induction ds as [| d ds IH]; intros w o; simpl.
  - intros E. injection E as _ <-. apply same_objects_refl.
  - unfold bind at 1. destruct (roll d n w) as [[c | e |] w1] eqn:Hr.
    + unfold bind at 1, ret.
      destruct (roll_each ds n w1) as [[cs | e |] w2] eqn:Hrs;
        intros E; injection E as _ <-;
        (eapply same_objects_trans;
         [eapply roll_objects; eauto | eapply IH; eauto]).
    + intros E. injection E as _ <-. eapply roll_objects; eauto.
    + intros E. injection E as _ <-. eapply roll_objects; eauto.
Qed.

Lemma roll_each_returns (ds : list nat) (n : Z) (w w' : World F)
    (cols : list (list F)) :
  roll_each ds n w = (Return cols, w') ->
  Forall2 (column_of w n) ds cols /\ (ds <> [] -> 0 <= n).
Proof.
  revert w w' cols. induction ds as [| d ds IH]; intros w w' cols; simpl.
  - intros E. injection E as <- _. split; [constructor | congruence].
  - intros E. apply bind_returns in E. destruct E as [c [w1 [Hr E]]].
    apply bind_returns in E. destruct E as [cs [w2 [Hrs E]]].
    injection E as <- _.
    pose proof (roll_objects _ _ _ Hr) as [Hd1 _].
    destruct (roll_returns _ _ _ Hr) as [D [HD [Hn [Hlen Hin]]]].
    destruct (IH _ _ _ Hrs) as [Hall _].
    split; [| auto]. constructor.
    + exists D. auto.
    + eapply Forall2_impl; [| exact Hall].
      intros d' c' [D' [HD' H']]. exists D'. rewrite <- Hd1. auto.
Qed.

Lemma roll_each_rollable (ds : list nat) (n : Z) (w : World F) :
  Forall (fun d => exists D, nth_error (dies w) d = Some D /\
                             rollable D = true) ds ->
  0 <= n ->
  exists cols w', roll_each ds n w = (Return cols, w').
Proof.
  intros Hds Hn. revert w Hds. induction ds as [| d ds IH]; intros w Hds.
  - simpl. unfold ret. eauto.
  - inversion Hds as [| ? ? [D [HD Hroll]] Hrest]; subst.
    destruct (roll_rollable _ w HD Hroll Hn) as [c [w1 Hr]].
    pose proof (roll_objects _ _ _ Hr) as [Hd1 _].
    destruct (IH w1) as [cs [w2 Hrs]].
    { rewrite Hd1. exact Hrest. }
    simpl. unfold bind. rewrite Hr, Hrs. unfold ret. eauto.
Qed.

Lemma set_nth_snoc (A : Type) (l : list A) (x y : A) :
  set_nth (length l) y (l ++ [x]) = l ++ [y].
Proof.
  induction l as [| z l IH]; simpl; [reflexivity |]. now rewrite IH.
Qed.

(** The world after a [play] that returns: one new frame, to which the
    game now refers; every other object as before. *)
Lemma play_returns (g : nat) (n : Z) (w w' : World F) :
  play g n w = (Return tt, w') ->
  exists G cols,
    nth_error (games w) g = Some G /\
    Forall2 (column_of w n) (dice G) cols /\
    (dice G <> [] -> 0 <= n) /\
    dies w' = dies w /\
    games w' = set_nth g {| dice := dice G;
                            _results := Some (length (frames w)) |}
                       (games w) /\
    frames w' = frames w ++ [{| index_name := Some "roll_number";
                                columns := cols |}] /\
    rectangular {| index_name := Some "roll_number"; columns := cols |} /\
    exists w0, roll_each (dice G) n w = (Return cols, w0).
Proof.
  unfold play. intros E.
  apply bind_returns in E. destruct E as [G [w0 [Hg E]]].
  unfold get_game in Hg.
  destruct (nth_error (games w) g) as [G' |] eqn:HG; [| discriminate].
  injection Hg as -> <-.
  apply bind_returns in E. destruct E as [cols [w1 [Hroll E]]].
  apply bind_returns in E. destruct E as [df [w2 [Hdf E]]].
  unfold lift in Hdf.
  destruct (pd_DataFrame cols) as [df' | |] eqn:Hpd; try discriminate.
  injection Hdf as -> <-.
  destruct (pd_DataFrame_rectangular _ Hpd) as [Hcols [Hname Hrect]].
  destruct (roll_each_objects _ _ _ Hroll) as [Hd [Hgm Hf]].
  destruct (roll_each_returns _ _ _ Hroll) as [Hall Hn].
  unfold bind, new_frame, put_game, get_frame, put_frame in E. simpl in E.
  rewrite Hf, nth_error_snoc_new in E. simpl in E.
  rewrite set_nth_snoc in E.
  injection E as <-. simpl.
  exists G, cols. unfold set_index_name. rewrite Hcols.
  repeat split; auto; try congruence.
  - unfold rectangular, nrows in *. simpl. now rewrite Hcols in Hrect.
  - eauto.
Qed.

(** Whatever [play] does, the dice stay as they are and so do the
    frames that exist; a frame it adds is rectangular. *)
Lemma play_frames (g : nat) (n : Z) (w w' : World F) (o : outcome unit) :
  play g n w = (o, w') ->
  dies w' = dies w /\
  exists extra, frames w' = frames w ++ extra /\ Forall rectangular extra.
Proof.
  unfold play. unfold bind at 1. unfold get_game.
  destruct (nth_error (games w) g) as [G |];
    [| intros E; injection E as _ <-; split; [reflexivity |];
       exists []; rewrite app_nil_r; auto].
  unfold bind at 1.
  destruct (roll_each (dice G) n w) as [[cols | e |] w1] eqn:Hroll;
    destruct (roll_each_objects _ _ _ Hroll) as [Hd [Hgm Hf]];
    try (intros E; injection E as _ <-; split; [assumption |];
         exists []; rewrite app_nil_r; auto).
  unfold bind at 1, lift.
  destruct (pd_DataFrame cols) as [df | e |] eqn:Hpd;
    try (intros E; injection E as _ <-; split; [assumption |];
         exists []; rewrite app_nil_r; auto).
  destruct (pd_DataFrame_rectangular _ Hpd) as [Hcols [_ Hrect]].
  unfold bind, new_frame, put_game, get_frame, put_frame. simpl.
  rewrite nth_error_snoc_new. simpl. rewrite set_nth_snoc.
  intros E. injection E as _ <-. simpl. split; [assumption |].
  exists [set_index_name "roll_number" df]. rewrite Hf.
  split; [reflexivity |]. constructor; [| constructor]. exact Hrect.
Qed.


Lemma play_wf (g : nat) (n : Z) (w w' : World F) (o : outcome unit) :
  play g n w = (o, w') -> wf_world w -> wf_world w'.
Proof.
  intros Hplay Hwf. destruct (play_frames _ _ _ Hplay) as [_ [extra [Hf He]]].
  unfold wf_world. rewrite Hf. apply Forall_app. auto.
Qed.

(** A game whose dice can all be rolled can be played. *)
Lemma play_rollable (g : nat) (n : Z) (w : World F) (G : Game) :
  nth_error (games w) g = Some G ->
  Forall (fun d => exists D, nth_error (dies w) d = Some D /\
                             rollable D = true) (dice G) ->
  0 <= n ->
  exists w', play g n w = (Return tt, w').
Proof.
  intros HG Hds Hn.
  destruct (@roll_each_rollable (dice G) n w Hds Hn) as [cols [w1 Hroll]].
  destruct (roll_each_returns _ _ _ Hroll) as [Hall _].
  unfold play. unfold bind at 1. unfold get_game. rewrite HG.
  unfold bind at 1. rewrite Hroll. unfold bind at 1, lift.
  assert (Hpd : exists df, pd_DataFrame cols = Return df).
  { unfold pd_DataFrame. destruct cols as [| c cs]; [eauto |].
    assert (Hlen : forallb (fun c' => Nat.eqb (length c') (length c)) cs
                   = true).
    { apply forallb_forall. intros c' Hc'. apply Nat.eqb_eq.
      assert (Hc : forall x, In x (c :: cs) -> length x = Z.to_nat n).
      { clear -Hall. induction Hall as [| d x ds xs [D [_ [Hl _]]] _ IH].
        - intros x [].
        - intros y [<- | Hy]; auto. }
      rewrite (Hc c'), (Hc c); simpl; auto. }
    rewrite Hlen. eauto. }
  destruct Hpd as [df ->].
  unfold bind, new_frame, put_game, get_frame, put_frame. simpl.
  rewrite nth_error_snoc_new. eauto.
Qed.

Lemma show_results_wide (g : nat) (w : World F) (G : Game) (r : nat)
    (df : DataFrame F) :
  nth_error (games w) g = Some G -> _results G = Some r ->
  nth_error (frames w) r = Some df ->
  show_results g "wide" w
  = (Return (Wide (length (frames w))),
     {| dies := dies w; games := games w;
        frames := frames w ++ [copy df]; rng := rng w |}).
Proof.
  intros HG Hr Hdf. unfold show_results, bind, get_game, get_frame, new_frame.
  rewrite HG, Hr. simpl. rewrite Hdf. reflexivity.
Qed.


(** *** Analyzer *)

(** An analyzer is born with a frame of its own: a copy of the results
    of its game, under a reference no other object holds. *)
Lemma Analyzer_init_returns (game_arg : pyobj) (w w' : World F)
    (a : Analyzer) :
  Analyzer_init game_arg w = (Return a, w') ->
  exists g G r df,
    game_arg = PyGame g /\ game a = g /\
    nth_error (games w) g = Some G /\ _results G = Some r /\
    nth_error (frames w) r = Some df /\
    results a = length (frames w) /\
    dies w' = dies w /\ games w' = games w /\
    frames w' = frames w ++ [copy df].
Proof.
  unfold Analyzer_init. destruct game_arg as [| g |]; try discriminate.
  intros E. apply bind_returns in E. destruct E as [v [w1 [Hshow E]]].
  unfold show_results, bind, get_game in Hshow.
  destruct (nth_error (games w) g) as [G |] eqn:HG; [| discriminate].
  destruct (_results G) as [r |] eqn:Hr; [| discriminate].
  simpl in Hshow. unfold get_frame in Hshow.
  destruct (nth_error (frames w) r) as [df |] eqn:Hdf; [| discriminate].
  unfold new_frame, ret in Hshow. injection Hshow as <- <-.
  unfold ret in E. injection E as <- <-. simpl.
  exists g, G, r, df. repeat split; auto.
Qed.

(** In a world of rectangular frames, the frame of a new Analyzer is
    rectangular and the world stays one of rectangular frames. *)
Lemma Analyzer_init_wf (game_arg : pyobj) (w w' : World F) (a : Analyzer) :
  Analyzer_init game_arg w = (Return a, w') -> wf_world w ->
  wf_world w' /\
  exists df, nth_error (frames w') (results a) = Some df /\ rectangular df.
Proof.
  intros Hinit Hwf.
  destruct (Analyzer_init_returns _ _ Hinit)
    as [g [G [r [df [_ [_ [_ [_ [Hdf [Hres [_ [_ Hf]]]]]]]]]]]].
  assert (Hrect : rectangular (copy df)).
  { unfold wf_world in Hwf. rewrite Forall_forall in Hwf.
    apply nth_error_In in Hdf. exact (Hwf _ Hdf). }
  split.
  - unfold wf_world. rewrite Hf. apply Forall_app. auto.
  - exists (copy df). split; [| exact Hrect].
    rewrite Hf, Hres. apply nth_error_snoc_new.
Qed.

(** *** The frames of a world stay rectangular *)

(** The call ended at this point with the world it had: whatever held of
    the world holds still. *)
Ltac ends_here := let E := fresh "E" in intros E; injection E as _ <-; auto.

Lemma frames_unchanged_wf (w w' : World F) :
  frames w' = frames w -> wf_world w -> wf_world w'.
Proof. unfold wf_world. now intros ->. Qed.

Lemma Die_init_wf (faces : pyseq F) (w w' : World F) (o : outcome nat) :
  Die_init faces w = (o, w') -> wf_world w -> wf_world w'.
Proof.
  destruct faces; simpl; ends_here.
Qed.

Lemma change_weight_wf (d : nat) (face : F) (x : float64) (w w' : World F)
    (o : outcome unit) :
  change_weight d face x w = (o, w') -> wf_world w -> wf_world w'.
Proof.
  unfold change_weight, bind, get_die, put_die.
  destruct (nth_error (dies w) d) as [D |];
    [| ends_here].
  destruct (negb _); ends_here.
Qed.

Lemma roll_wf (d : nat) (n : Z) (w w' : World F) (o : outcome (list F)) :
  roll d n w = (o, w') -> wf_world w -> wf_world w'.
Proof.
  intros Hr. destruct (roll_objects _ _ _ Hr) as [_ [_ Hf]].
  now apply frames_unchanged_wf.
Qed.

Lemma Game_init_wf (dice_arg : pyseq pyobj) (w w' : World F)
    (o : outcome nat) :
  Game_init dice_arg w = (o, w') -> wf_world w -> wf_world w'.
Proof.
  destruct dice_arg as [l | l |]; simpl;
    try (ends_here).
  destruct (all_dice l); ends_here.
Qed.

Lemma copy_rectangular (df : DataFrame F) :
  rectangular df -> rectangular (copy df).
Proof. auto. Qed.

Lemma show_results_wf (g : nat) (form : string) (w w' : World F)
    (o : outcome (view F)) :
  show_results g form w = (o, w') -> wf_world w -> wf_world w'.
Proof.
  intros Hshow Hwf. revert Hshow. unfold show_results, bind, get_game.
  destruct (nth_error (games w) g) as [G |];
    [| ends_here].
  destruct (_results G) as [r |];
    [| ends_here].
  unfold get_frame. destruct (String.eqb form "wide").
  - destruct (nth_error (frames w) r) as [df |] eqn:Hdf;
      [| ends_here].
    intros E. injection E as _ <-. unfold wf_world. simpl.
    apply Forall_app. split; [exact Hwf |]. constructor; [| constructor].
    apply copy_rectangular. unfold wf_world in Hwf.
    rewrite Forall_forall in Hwf. apply Hwf.
    eapply nth_error_In. exact Hdf.
  - destruct (String.eqb form "narrow").
    + destruct (nth_error (frames w) r) as [df |];
        ends_here.
    + ends_here.
Qed.
End Methods.

Lemma empty_world_wf (draws : nat -> Z) : wf_world (empty_world draws).
Proof. constructor. Qed.

(** * The Analyzer *)

Section AnalyzerFacts.
Context {F : Type} {HF : Face F}.


Lemma iterrows_rows_nonempty (df : DataFrame F) (row : list F) :
  In row (iterrows df) -> row <> [].
Proof.
  intros Hin Hnil. subst.
  pose proof (iterrows_row_length df) as Hlen.
  rewrite Forall_forall in Hlen. specialize (Hlen _ Hin). simpl in Hlen.
  symmetry in Hlen. rewrite (iterrows_no_columns df Hlen) in Hin.
  destruct Hin.
Qed.


(** *** FaceCounts *)


Lemma In_union_indexes (indexes : list (list F)) (f : F) :
  In f (union_indexes indexes) <-> exists i, In i indexes /\ In f i.
Proof.
  unfold union_indexes. destruct indexes as [| i0 rest].
  - split; [intros [] | intros [i [[] _]]].
  - destruct (forallb _ rest) eqn:Hall.
    + rewrite forallb_forall in Hall. split.
      * intros Hin. exists i0. split; [now left | assumption].
      * intros [i [[<- | Hi] Hf]]; [assumption |].
        apply Hall in Hi. apply (list_eqb_eq face_eqb face_eqb_eq) in Hi.
        now subst.
    + split.
      * intros Hin. apply (Permutation_in _ (sorted_perm _)) in Hin.
        rewrite (In_unique face_eqb face_eqb_eq) in Hin.
        apply in_concat in Hin. destruct Hin as [i [Hi Hf]]. eauto.
      * intros [i [Hi Hf]].
        apply (Permutation_in _ (Permutation_sym (sorted_perm _))).
        rewrite (In_unique face_eqb face_eqb_eq).
        apply in_concat. eauto.
Qed.


(** *** Combo *)

Lemma length_filter_map (A B : Type) (f : A -> B) (p : B -> bool)
    (l : list A) :
  length (filter p (map f l)) = length (filter (fun x => p (f x)) l).
Proof.
  induction l as [| x l IH]; simpl; [reflexivity |].
  destruct (p (f x)); simpl; now rewrite IH.
Qed.


(** C10. [permutation_count()] returns the table that
    [face_counts_per_roll()] returns on the same results. *)
Theorem permutation_count_is_face_counts (a : Analyzer) (w : World F) :
  permutation_count a w = face_counts_per_roll a w.
Proof. reflexivity. Qed.
End AnalyzerFacts.

(** * The long form of the results *)

Section Melt.
Context {F : Type} {HF : Face F}.










End Melt.

(** * The Game and its results *)

Section GameFacts.
Context {F : Type} {HF : Face F}.




(** *** The snapshot of an Analyzer *)




End GameFacts.

(** * The die, at the inputs its checks miss *)

(** C6. [Die([1, 1])]: the faces are not distinct, and the constructor
    returns a die of two rows of face 1, each of weight 1.0, where its
    docstring and the specification have it raise. *)
Theorem Die_init_accepts_repeated_faces :
  ~ NoDup [1; 1] /\
  Die_init (PyList [1; 1]) world0
  = (Return 0%nat,
     {| dies := [{| die := [(1, Finite 1); (1, Finite 1)] |}];
        games := []; frames := []; rng := rng world0 |}).
Proof.
  split; [| reflexivity].
  intros Hnd. inversion Hnd as [| x l Hnot _]; subst. apply Hnot. now left.
Qed.

(** C7. [Die([1, 2, 3]).change_weight(1, -5)] returns and the die then
    has the weight -5 on face 1, and a weight of NaN or of infinity is
    taken as well, where the docstring and the specification have the
    call raise and leave the weights alone. *)
Theorem change_weight_accepts_any_weight :
  fst (change_weight 0 1 (Finite (-5)) one_die_world) = Return tt /\
  fst (show_state 0 (snd (change_weight 0 1 (Finite (-5)) one_die_world)))
  = Return [(1, Finite (-5)); (2, Finite 1); (3, Finite 1)] /\
  fst (change_weight 0 1 NaN one_die_world) = Return tt /\
  fst (change_weight 0 1 PInf one_die_world) = Return tt.
Proof. repeat split. Qed.

(** C8. With the weights -1 and -1, whose sum is not positive, [roll(3)]
    returns three faces; with the weights 3 and -1, whose sum is
    positive, [roll(3)] raises.  Both dice are made by [change_weight],
    which takes the negative weights. *)
Theorem roll_normalises_negative_weights :
  fltb (Finite 0) (series_sum [Finite (-1); Finite (-1)]) = false /\
  fst (show_state 0 (weighted_die_world (-1) (-1)))
  = Return [(1, Finite (-1)); (2, Finite (-1))] /\
  fst (roll 0 3 (weighted_die_world (-1) (-1))) = Return [1; 1; 2] /\
  fltb (Finite 0) (series_sum [Finite 3; Finite (-1)]) = true /\
  fst (show_state 0 (weighted_die_world 3 (-1)))
  = Return [(1, Finite 3); (2, Finite (-1))] /\
  fst (roll 0 3 (weighted_die_world 3 (-1)))
  = Raise (ValueError "probabilities are not non-negative").
Proof. repeat split. Qed.

(** * The theorems at a concrete run *)









(** * More about the Die *)

Lemma set_nth_twice (A : Type) (l : list A) (i : nat) (x y : A) :
  set_nth i y (set_nth i x l) = set_nth i y l.
Proof.
  revert i. induction l as [| z l IH]; intros [| i]; simpl; try reflexivity.
  now rewrite IH.
Qed.

Section DieMore.
Context {F : Type} {HF : Face F}.



Lemma loc_set_weight_twice (face : F) (x y : float64)
    (t : list (F * float64)) :
  loc_set_weight face y (loc_set_weight face x t) = loc_set_weight face y t.
Proof.
  unfold loc_set_weight. rewrite map_map. apply map_ext. intros [f z].
  simpl. destruct (face_eqb f face) eqn:E; simpl; now rewrite E.
Qed.

Lemma loc_set_weight_comm (f1 f2 : F) (x y : float64)
    (t : list (F * float64)) :
  f1 <> f2 ->
  loc_set_weight f2 y (loc_set_weight f1 x t)
  = loc_set_weight f1 x (loc_set_weight f2 y t).
Proof.
  intros Hne. unfold loc_set_weight. rewrite !map_map. apply map_ext.
  intros [f z]. simpl.
  destruct (face_eqb f f1) eqn:E1; destruct (face_eqb f f2) eqn:E2; simpl;
    rewrite ?E1, ?E2; try reflexivity.
  apply face_eqb_eq in E1, E2. congruence.
Qed.

(** X1. [Die(faces)] on a list or an array returns a new die whose state
    lists the faces in the order given, repeated faces included, each with
    the weight 1.0, and leaves every object that exists as it is; on any
    other argument it raises [TypeError] and the world is as it was. *)
Theorem Die_init_then_show_state (faces : pyseq F) (w : World F) :
  match faces with
  | PyList l | PyNdarray l =>
      exists w1,
        Die_init faces w = (Return (length (dies w)), w1) /\
        show_state (length (dies w)) w1
        = (Return (map (fun f => (f, Finite 1)) l), w1) /\
        (forall d, (d < length (dies w))%nat ->
                   nth_error (dies w1) d = nth_error (dies w) d) /\
        games w1 = games w /\ frames w1 = frames w /\ rng w1 = rng w
  | PyOther =>
      Die_init faces w
      = (Raise (TypeError "Faces must be a list or numpy array."), w)
  end.
Proof.
  destruct faces as [l | l |]; [| | reflexivity];
    (eexists; split; [reflexivity |]; split;
     [unfold show_state, bind, get_die; simpl;
      now rewrite nth_error_snoc_new
     | split; [intros d Hd; simpl; now apply nth_error_snoc_old | auto]]).
Qed.


(** X3. [change_weight] on a face the die does not have raises
    [ValueError] with the message that names the face, and the world,
    the weights of the die included, is exactly as it was. *)
Theorem change_weight_missing_face (d : nat) (D : Die F) (face : F)
    (new_weight : float64) (w : World F) :
  nth_error (dies w) d = Some D -> ~ In face (map fst (die D)) ->
  change_weight d face new_weight w
  = (Raise (ValueError
              (String.append "Face "
                 (String.append (face_str face) " does not exist."))), w) /\
  show_state d w = (Return (die D), w).
Proof.
  intros Hd Hnot. split; [now apply (@change_weight_absent _ _ d D) |].
  unfold show_state, bind, get_die. now rewrite Hd.
Qed.

(** X4. Of two calls of [change_weight] on the same face the last one
    wins: the world after both is the world after the second alone. *)
Theorem change_weight_last_call_wins (d : nat) (D : Die F) (face : F)
    (x y : float64) (w : World F) :
  nth_error (dies w) d = Some D -> In face (map fst (die D)) ->
  fst (change_weight d face y (snd (change_weight d face x w))) = Return tt /\
  snd (change_weight d face y (snd (change_weight d face x w)))
  = snd (change_weight d face y w).
Proof.
  intros Hd Hin. rewrite (@change_weight_present _ _ d D face x w Hd Hin). simpl snd.
  set (w1 := {| dies := _; games := _; frames := _; rng := _ |}).
  assert (Hd1 : nth_error (dies w1) d
                = Some {| die := loc_set_weight face x (die D) |}).
  { simpl. now erewrite nth_error_set_nth_same by exact Hd. }
  assert (Hin1 : In face (map fst (die {| die := loc_set_weight face x
                                                   (die D) |}))).
  { simpl. now rewrite loc_set_weight_faces. }
  rewrite (@change_weight_present _ _ d _ face y w1 Hd1 Hin1).
  rewrite (@change_weight_present _ _ d D face y w Hd Hin). simpl.
  split; [reflexivity |]. now rewrite set_nth_twice, loc_set_weight_twice.
Qed.

(** X5. Calls of [change_weight] on two different faces of a die can be
    made in either order: the world after both is the same. *)
Theorem change_weight_order_of_faces (d : nat) (D : Die F) (f1 f2 : F)
    (x y : float64) (w : World F) :
  nth_error (dies w) d = Some D ->
  In f1 (map fst (die D)) -> In f2 (map fst (die D)) -> f1 <> f2 ->
  change_weight d f2 y (snd (change_weight d f1 x w))
  = change_weight d f1 x (snd (change_weight d f2 y w)).
Proof.
  intros Hd Hin1 Hin2 Hne.
  rewrite (@change_weight_present _ _ d D f1 x w Hd Hin1).
  rewrite (@change_weight_present _ _ d D f2 y w Hd Hin2). simpl snd.
  match goal with
  | |- change_weight d f2 y ?wa = change_weight d f1 x ?wb =>
      set (w1 := wa); set (w2 := wb)
  end.
  assert (Hd1 : nth_error (dies w1) d
                = Some {| die := loc_set_weight f1 x (die D) |}).
  { simpl. now erewrite nth_error_set_nth_same by exact Hd. }
  assert (Hd2 : nth_error (dies w2) d
                = Some {| die := loc_set_weight f2 y (die D) |}).
  { simpl. now erewrite nth_error_set_nth_same by exact Hd. }
  rewrite (@change_weight_present _ _ d _ f2 y w1 Hd1)
    by (simpl; now rewrite loc_set_weight_faces).
  rewrite (@change_weight_present _ _ d _ f1 x w2 Hd2)
    by (simpl; now rewrite loc_set_weight_faces).
  simpl. now rewrite !set_nth_twice, (loc_set_weight_comm x y (die D) Hne).
Qed.
End DieMore.

(** * More about rolling *)

Lemma cumsum_from_qcumsum (ps : list Q) (acc : Q) :
  cumsum_from (Finite acc) (map Finite ps) = map Finite (qcumsum acc ps).
Proof.
  revert acc. induction ps as [| p ps IH]; intros acc; simpl; [reflexivity |].
  now rewrite IH.
Qed.

Lemma Qltb_ge (x y : Q) : Qltb x y = false -> (y <= x)%Q.
Proof.
  unfold Qltb. intros E. apply negb_false_iff in E. now apply Qle_bool_iff.
Qed.

(** The search in the cumulative table stops on an entry of positive
    probability. *)
Lemma searchsorted_positive (t u : Q) (ps : list Q) (acc p : Q) :
  (0 < t)%Q -> (acc / t <= u)%Q ->
  nth_error ps (searchsorted_right
                  (map (fun c => Finite (c / t)) (qcumsum acc ps)) (Finite u))
  = Some p ->
  (0 < p)%Q.
Proof.
  intros Ht. revert acc. induction ps as [| a ps IH]; intros acc Hacc Hp.
  - discriminate.
  - simpl qcumsum in Hp. simpl map in Hp. simpl searchsorted_right in Hp.
    destruct (Qltb u ((acc + a) / t)) eqn:E.
    + simpl in Hp. injection Hp as <-. apply Qltb_lt in E.
      assert (Hlt : (acc / t < (acc + a) / t)%Q)
        by (eapply Qle_lt_trans; eauto).
      apply (Qmult_lt_r _ _ t Ht) in Hlt.
      assert (E1 : (acc / t * t == acc)%Q) by (field; lra).
      assert (E2 : ((acc + a) / t * t == acc + a)%Q) by (field; lra).
      rewrite E1, E2 in Hlt. lra.
    + simpl in Hp. apply (IH (acc + a)%Q); [| exact Hp].
      now apply Qltb_ge.
Qed.

Lemma take_spec (F : Type) (a : list F) (idx : list nat) (xs : list F) :
  take a idx = Return xs ->
  Forall2 (fun i x => nth_error a i = Some x) idx xs.
Proof.
  revert xs. induction idx as [| i idx IH]; intros xs; simpl.
  - intros E. injection E as <-. constructor.
  - destruct (nth_error a i) as [x |] eqn:Hi; [| discriminate].
    destruct (take a idx) as [ys | |]; try discriminate.
    intros E. injection E as <-. constructor; auto.
Qed.

(** Whatever [choice] draws under non-negative probabilities stands at a
    position of positive probability. *)
Lemma choice_draws_positive (F : Type) (a : list F) (size : Z) (ps : list Q)
    (rs rs' : RandomState) (xs : list F) :
  Forall (fun q => (0 <= q)%Q) ps ->
  choice a size (map Finite ps) rs = (Return xs, rs') ->
  Forall (fun x => exists i p, nth_error a i = Some x /\
                               nth_error ps i = Some p /\ (0 < p)%Q) xs.
Proof.
  intros Hpos. unfold choice.
  destruct (_ && _); [discriminate |].
  destruct (negb _) eqn:Hlen; [discriminate |].
  apply negb_false_iff, Nat.eqb_eq in Hlen. rewrite length_map in Hlen.
  unfold kahan_sum. rewrite fold_fadd_finite. simpl isnan.
  destruct (existsb _ _); [discriminate |].
  set (t := fold_left Qplus ps 0%Q).
  destruct (fltb atol _) eqn:Htol; [discriminate |].
  assert (Ht : (0 < t)%Q).
  { destruct (Qlt_le_dec 0 t) as [Hlt | Hle]; [exact Hlt |].
    exfalso. pose proof (fold_Qplus_nonneg (Qle_refl 0) Hpos) as Hge.
    fold t in Hge. assert (E : (t == 0)%Q) by (apply Qle_antisym; assumption).
    simpl in Htol. rewrite Qltb_true in Htol; [discriminate |].
    assert (E1 : (Qabs (t - 1) == 1)%Q) by (rewrite E; reflexivity).
    rewrite E1. reflexivity. }
  assert (Hmne : map Finite ps <> []).
  { destruct ps; [| discriminate]. exfalso. unfold t in Ht. simpl in Ht.
    now apply Qlt_irrefl in Ht. }
  rewrite (last_opt_cumsum Hmne). unfold kahan_sum.
  rewrite fold_fadd_finite. fold t.
  destruct (size <? 0); [discriminate |].
  pose proof (random_samples_range (Z.to_nat size) rs) as Hus.
  destruct (random_samples (Z.to_nat size) rs) as [us rs2]. simpl in Hus.
  intros E. injection E as Htake _. apply take_spec in Htake.
  unfold cumsum in Htake. rewrite cumsum_from_qcumsum, !map_map in Htake.
  assert (Ht0 : Qeq_bool t 0 = false).
  { apply Qeq_bool_false. intros E. rewrite E in Ht. now apply Qlt_irrefl in Ht. }
  clear -Htake Hus Ht Ht0 Hlen.
  remember (map _ us) as idx eqn:Eidx.
  revert us Hus Eidx. induction Htake as [| i x idx xs Hix _ IH];
    intros us Hus Eidx; [constructor |].
  destruct us as [| u us]; [discriminate |]. simpl in Eidx.
  injection Eidx as Ei Eidx. apply Forall_cons_iff in Hus. destruct Hus as [[Hu0 _] Hus'].
  constructor; [| eapply IH; eauto].
  assert (Hlt : (i < length a)%nat).
  { apply nth_error_Some. congruence. }
  destruct (nth_error ps i) as [p |] eqn:Hp.
  - exists i, p. repeat split; auto.
    assert (Ei' : i = searchsorted_right
                        (map (fun c => Finite (c / t)) (qcumsum 0 ps))
                        (Finite u)).
    { rewrite Ei. f_equal. apply map_ext. intros c. now rewrite Ht0. }
    rewrite Ei' in Hp.
    apply (@searchsorted_positive t u ps 0%Q p Ht); [| exact Hp].
    assert (E0 : (0 / t == 0)%Q) by (field; lra). now rewrite E0.
  - apply nth_error_None in Hp. lia.
Qed.

Section RollMore.
Context {F : Type} {HF : Face F}.

(** On a die of finite, non-negative weights every face rolled has a
    positive weight. *)
Lemma roll_positive_faces (d : nat) (n : Z) (w w' : World F) (D : Die F)
    (xs : list F) :
  nth_error (dies w) d = Some D ->
  forallb nonneg_weight (map snd (die D)) = true ->
  roll d n w = (Return xs, w') ->
  Forall (positive_face D) xs.
Proof.
  intros Hd Hnn Hroll.
  destruct (nonneg_weights_finite _ Hnn) as [qs [Eqs Hqs]].
  assert (Es : series_sum (map snd (die D)) = Finite (fold_left Qplus qs 0%Q)).
  { rewrite Eqs. unfold series_sum.
    now rewrite filter_notnan_finite, fold_fadd_finite. }
  set (s := fold_left Qplus qs 0%Q) in *.
  assert (Hs : (0 < s)%Q).
  { destruct (Qlt_le_dec 0 s) as [Hlt | Hle]; [exact Hlt |].
    exfalso. pose proof (fold_Qplus_nonneg (Qle_refl 0) Hqs) as Hge.
    fold s in Hge. assert (E : (s == 0)%Q) by (apply Qle_antisym; assumption).
    destruct (@roll_zero_sum F d n w D s Hd Es E) as [msg Hmsg].
    rewrite Hroll in Hmsg. discriminate. }
  assert (Hs0 : Qeq_bool s 0 = false).
  { apply Qeq_bool_false. intros E. rewrite E in Hs. now apply Qlt_irrefl in Hs. }
  unfold roll, bind, get_die, np_random_choice in Hroll. rewrite Hd in Hroll.
  rewrite Es, Eqs in Hroll.
  assert (Ep : map (fun x => fdiv x (Finite s)) (map Finite qs)
               = map Finite (map (fun q => (q / s)%Q) qs)).
  { rewrite !map_map. apply map_ext. intros q. simpl. now rewrite Hs0. }
  rewrite Ep in Hroll.
  destruct (choice _ _ _ _) as [o rs] eqn:Hc. injection Hroll as -> _.
  apply choice_draws_positive in Hc.
  - eapply Forall_impl; [| exact Hc].
    intros x [i [p [Hx [Hp Hp0]]]]. rewrite nth_error_map in Hx, Hp.
    destruct (nth_error (die D) i) as [[x' y] |] eqn:Hrow; [| discriminate].
    destruct (nth_error qs i) as [q |] eqn:Hq; [| discriminate].
    simpl in Hx, Hp. injection Hx as ->. injection Hp as <-.
    assert (Ey : nth_error (map snd (die D)) i = Some y)
      by (rewrite nth_error_map, Hrow; reflexivity).
    rewrite Eqs, nth_error_map, Hq in Ey. simpl in Ey. injection Ey as <-.
    exists q. split; [eapply nth_error_In; eauto |].
    assert (E : (q == q / s * s)%Q) by (field; lra).
    rewrite E. apply Qmult_lt_0_compat; assumption.
  - apply Forall_forall. intros p Hp. apply in_map_iff in Hp.
    destruct Hp as [q [<- Hq]]. rewrite Forall_forall in Hqs.
    apply Qle_shift_div_l; [exact Hs |]. rewrite Qmult_0_l. auto.
Qed.

(** X7. On a die whose weights are all finite and not negative, every
    face that [roll] returns stands in a row of positive weight: a face
    whose weight is 0 is never rolled. *)
Theorem roll_never_draws_a_face_of_weight_zero (d : nat) (n : Z)
    (w w' : World F) (D : Die F) (xs : list F) :
  nth_error (dies w) d = Some D ->
  forallb nonneg_weight (map snd (die D)) = true ->
  roll d n w = (Return xs, w') ->
  Forall (positive_face D) xs /\
  forall f, zero_weight D f -> ~ In f xs.
Proof.
  intros Hd Hnn Hroll.
  pose proof (@roll_positive_faces d n w w' D xs Hd Hnn Hroll) as Hpos.
  split; [exact Hpos |]. intros f Hzero Hin.
  rewrite Forall_forall in Hpos. destruct (Hpos f Hin) as [q [Hrow Hq]].
  specialize (Hzero _ Hrow). injection Hzero as ->.
  now apply Qlt_irrefl in Hq.
Qed.
End RollMore.

(** * More about the Game *)

Lemma all_dice_of_dice (rs : list nat) : all_dice (map PyDie rs) = Some rs.
Proof.
  induction rs as [| r rs IH]; simpl; [reflexivity |]. now rewrite IH.
Qed.

Lemma all_dice_inv (l : list pyobj) (rs : list nat) :
  all_dice l = Some rs -> l = map PyDie rs.
Proof.
  revert rs. induction l as [| x l IH]; intros rs; simpl.
  - intros E. now injection E as <-.
  - destruct x as [r | r |]; try discriminate.
    destruct (all_dice l) as [rs' |]; [| discriminate].
    intros E. injection E as <-. simpl. now rewrite (IH rs' eq_refl).
Qed.

Section GameMore.
Context {F : Type} {HF : Face F}.

(** A [play] that does not return has changed no object. *)
Lemma play_not_returning (g : nat) (n : Z) (w w' : World F)
    (o : outcome unit) :
  play g n w = (o, w') -> o <> Return tt -> same_objects w w'.
Proof.
  unfold play. unfold bind at 1. unfold get_game.
  destruct (nth_error (games w) g) as [G |];
    [| intros E _; injection E as _ <-; apply same_objects_refl].
  unfold bind at 1.
  destruct (roll_each (dice G) n w) as [[cols | e |] w1] eqn:Hroll;
    pose proof (roll_each_objects _ _ _ Hroll) as Hobj;
    try (intros E _; injection E as _ <-; exact Hobj).
  unfold bind at 1, lift.
  destruct (pd_DataFrame cols) as [df | e |];
    try (intros E _; injection E as _ <-; exact Hobj).
  unfold bind, new_frame, put_game, get_frame, put_frame. simpl.
  rewrite nth_error_snoc_new. intros E Hne. injection E as <- _.
  congruence.
Qed.

Lemma roll_each_positive (ds : list nat) (n : Z) (w w' : World F)
    (cols : list (list F)) :
  Forall (fun d => exists D, nth_error (dies w) d = Some D /\
                   forallb nonneg_weight (map snd (die D)) = true) ds ->
  roll_each ds n w = (Return cols, w') ->
  Forall2 (fun d c => exists D, nth_error (dies w) d = Some D /\
                                Forall (positive_face D) c) ds cols.
Proof.
  revert w w' cols. induction ds as [| d ds IH]; intros w w' cols Hds; simpl.
  - intros E. injection E as <- _. constructor.
  - intros E. apply bind_returns in E. destruct E as [c [w1 [Hr E]]].
    apply bind_returns in E. destruct E as [cs [w2 [Hrs E]]].
    injection E as <- _.
    apply Forall_cons_iff in Hds. destruct Hds as [[D [HD Hnn]] Hds].
    pose proof (roll_objects _ _ _ Hr) as [Hd1 _].
    constructor.
    + exists D. split; [exact HD |].
      exact (@roll_positive_faces F d n w w1 D c HD Hnn Hr).
    + assert (Hds1 : Forall (fun d => exists D,
                                 nth_error (dies w1) d = Some D /\
                                 forallb nonneg_weight (map snd (die D))
                                 = true) ds)
        by (now rewrite Hd1).
      specialize (IH _ _ _ Hds1 Hrs). now rewrite Hd1 in IH.
Qed.

(** X8. [Game(dice)] returns exactly on a list whose elements are all
    dice, an empty list included: the new game holds the dice in the
    order given and has no results, and nothing else changes.  On
    anything else, an array of dice included, it raises [TypeError] and
    the world is as it was. *)
Theorem Game_init_accepts_lists_of_dice (dice_arg : pyseq pyobj)
    (w : World F) :
  (forall rs, dice_arg = PyList (map PyDie rs) ->
     Game_init dice_arg w
     = (Return (length (games w)),
        {| dies := dies w;
           games := games w ++ [{| dice := rs; _results := None |}];
           frames := frames w; rng := rng w |})) /\
  ((forall rs, dice_arg <> PyList (map PyDie rs)) ->
     exists msg, Game_init dice_arg w = (Raise (TypeError msg), w)).
Proof.
  split.
  - intros rs ->. unfold Game_init. now rewrite all_dice_of_dice.
  - intros Hnot. destruct dice_arg as [l | l |]; simpl; unfold raise; eauto.
    destruct (all_dice l) as [rs |] eqn:E; eauto.
    apply all_dice_inv in E. subst. exfalso. now apply (Hnot rs).
Qed.

(** X9. On a game that has not been played [show_results] raises
    [ValueError], 'No results available', whatever the form asked for,
    an invalid one included; the world is as it was. *)
Theorem show_results_before_play (g : nat) (G : Game) (form : string)
    (w : World F) :
  nth_error (games w) g = Some G -> _results G = None ->
  show_results g form w
  = (Raise (ValueError "No results available. Please play the game first."),
     w).
Proof.
  intros HG Hr. unfold show_results, bind, get_game. now rewrite HG, Hr.
Qed.

(** X10. On a played game a form that is neither ['wide'] nor ['narrow']
    makes [show_results] raise [ValueError], 'Invalid form option', and
    the world, the results included, is as it was. *)
Theorem show_results_invalid_form (g : nat) (G : Game) (r : nat)
    (form : string) (w : World F) :
  nth_error (games w) g = Some G -> _results G = Some r ->
  form <> "wide" -> form <> "narrow" ->
  show_results g form w
  = (Raise (ValueError "Invalid form option. Use 'wide' or 'narrow'."), w).
Proof.
  intros HG Hr Hw Hn. unfold show_results, bind, get_game. rewrite HG, Hr.
  apply String.eqb_neq in Hw, Hn. now rewrite Hw, Hn.
Qed.

(** X11. [show_results('wide')] hands back a frame of its own: a new
    reference, different from the one the game holds, to a frame with the
    columns and the index name of the results; the results, every other
    frame, the dice, the games and the random state are as they were. *)
Theorem show_results_wide_is_a_copy (g : nat) (G : Game) (r : nat)
    (df : DataFrame F) (w : World F) :
  nth_error (games w) g = Some G -> _results G = Some r ->
  nth_error (frames w) r = Some df ->
  exists r' w1 df',
    show_results g "wide" w = (Return (Wide r'), w1) /\
    r' <> r /\ nth_error (frames w) r' = None /\
    nth_error (frames w1) r' = Some df' /\
    columns df' = columns df /\ index_name df' = index_name df /\
    only_new_frames w w1.
Proof.
  intros HG Hr Hdf. rewrite (show_results_wide _ _ HG Hr Hdf).
  eexists _, _, (copy df). split; [reflexivity |].
  assert (Hlt : (r < length (frames w))%nat).
  { apply nth_error_Some. congruence. }
  split; [lia |]. split; [apply nth_error_None; lia |].
  split; [apply nth_error_snoc_new |]. split; [reflexivity |].
  split; [reflexivity |]. repeat split.
  intros k Hk. simpl. now apply nth_error_snoc_old.
Qed.


(** X13. On a game with at least one die [play(n)] with a negative [n]
    raises [ValueError], whatever the weights, and changes no object. *)
Theorem play_negative_count (g : nat) (G : Game) (d : nat) (ds : list nat)
    (D : Die F) (n : Z) (w : World F) :
  nth_error (games w) g = Some G -> dice G = d :: ds ->
  nth_error (dies w) d = Some D -> n < 0 ->
  exists msg w',
    play g n w = (Raise (ValueError msg), w') /\ same_objects w w'.
Proof.
  intros HG Hdice HD Hn.
  destruct (@roll_negative F d n w D HD Hn) as [msg Hmsg].
  destruct (roll d n w) as [o w1] eqn:Hr. simpl in Hmsg. subst o.
  exists msg, w1. split; [| eapply roll_objects; eauto].
  unfold play, bind at 1, get_game. rewrite HG, Hdice. simpl roll_each.
  unfold bind. now rewrite Hr.
Qed.

(** X14. Whatever [play] on a game does, it changes no die, no other
    game and no frame that exists, and the game keeps its dice. *)
Theorem play_touches_one_game (g : nat) (n : Z) (w w' : World F)
    (o : outcome unit) :
  play g n w = (o, w') ->
  dies w' = dies w /\
  (forall g', g' <> g -> nth_error (games w') g' = nth_error (games w) g') /\
  (forall G, nth_error (games w) g = Some G ->
             exists G', nth_error (games w') g = Some G' /\
                        dice G' = dice G) /\
  (forall k, (k < length (frames w))%nat ->
             nth_error (frames w') k = nth_error (frames w) k).
Proof.
  intros Hplay. destruct o as [[] | e |].
  - destruct (play_returns _ _ _ Hplay)
      as [G [cols [HG [_ [_ [Hd [Hgm [Hf _]]]]]]]].
    split; [exact Hd |]. split.
    { intros g' Hg'. rewrite Hgm. apply nth_error_set_nth_other. congruence. }
    split.
    { intros G0 HG0. rewrite HG in HG0. injection HG0 as <-.
      exists {| dice := dice G; _results := Some (length (frames w)) |}.
      split; [| reflexivity].
      rewrite Hgm. eapply nth_error_set_nth_same. exact HG. }
    intros k Hk. rewrite Hf. now apply nth_error_snoc_old.
  - destruct (play_not_returning _ _ _ Hplay) as [Hd [Hg Hf]];
      [discriminate |].
    rewrite Hd, Hg, Hf. repeat split; eauto.
  - destruct (play_not_returning _ _ _ Hplay) as [Hd [Hg Hf]];
      [discriminate |].
    rewrite Hd, Hg, Hf. repeat split; eauto.
Qed.

(** X15. A game rolls its dice with the weights they have when [play] is
    called: when these are all finite and not negative, the results the
    game then holds show, in the column of a die, only faces whose
    weight on that die is positive, and no face whose weight on it
    is 0. *)
Theorem play_uses_the_weights_of_the_moment (g : nat) (G : Game) (n : Z)
    (w w1 : World F) :
  nth_error (games w) g = Some G ->
  Forall (fun d => exists D, nth_error (dies w) d = Some D /\
                   forallb nonneg_weight (map snd (die D)) = true)
         (dice G) ->
  play g n w = (Return tt, w1) ->
  exists G1 r df,
    nth_error (games w1) g = Some G1 /\ _results G1 = Some r /\
    nth_error (frames w1) r = Some df /\
    Forall2 (fun d c =>
               exists D, nth_error (dies w) d = Some D /\
                         Forall (positive_face D) c /\
                         forall f, zero_weight D f -> ~ In f c)
            (dice G) (columns df).
Proof.
  intros HG Hds Hplay.
  destruct (play_returns _ _ _ Hplay)
    as [G' [cols [HG' [_ [_ [Hd [Hgm [Hf [_ [w0 Hroll]]]]]]]]]].
  rewrite HG in HG'. injection HG' as <-.
  eexists _, _, _. split.
  { rewrite Hgm. eapply nth_error_set_nth_same. exact HG. }
  split; [reflexivity |]. split.
  { rewrite Hf. apply nth_error_snoc_new. }
  simpl columns. eapply Forall2_impl; [| eapply roll_each_positive; eauto].
  intros d c [D [HD Hpos]]. exists D. split; [exact HD |].
  split; [exact Hpos |]. intros f Hzero Hin.
  rewrite Forall_forall in Hpos. destruct (Hpos f Hin) as [q [Hrow Hq]].
  specialize (Hzero _ Hrow). injection Hzero as ->.
  now apply Qlt_irrefl in Hq.
Qed.

(** X16. [Analyzer(game)] on a game that has not been played raises the
    [ValueError] of [show_results], 'No results available', and on an
    argument that is not a game, a die or [None], it raises [TypeError];
    in both cases the world is as it was. *)
Theorem Analyzer_init_rejects (g : nat) (G : Game) (w : World F) :
  nth_error (games w) g = Some G -> _results G = None ->
  Analyzer_init (PyGame g) w
  = (Raise (ValueError "No results available. Please play the game first."),
     w) /\
  (forall r, Analyzer_init (PyDie r) w
             = (Raise (TypeError
                         "Input must be an instance of the Game class."), w)) /\
  Analyzer_init PyNone w
  = (Raise (TypeError "Input must be an instance of the Game class."), w).
Proof.
  intros HG Hr. split; [| split; reflexivity].
  unfold Analyzer_init, bind, show_results, bind, get_game. cbv beta.
  now rewrite HG, Hr.
Qed.
End GameMore.

(** * More about the Analyzer *)

Lemma zsum_map_zero (A : Type) (l : list A) : zsum (map (fun _ => 0) l) = 0.
Proof. induction l as [| x l IH]; simpl; lia. Qed.

Section CountFacts.
Variable A : Type.
Variable eqb : A -> A -> bool.
Hypothesis eqb_eq : forall x y, eqb x y = true <-> x = y.

Lemma sum_indicator_scaled (x : A) (k : Z) (cols : list A) :
  NoDup cols -> In x cols ->
  zsum (map (fun c => if eqb c x then k else 0) cols) = k.
Proof.
  induction 1 as [| y cols Hnot Hnd IH]; simpl; [tauto |].
  intros [-> | Hin].
  - rewrite (eqb_refl eqb eqb_eq).
    erewrite map_ext_in; [rewrite zsum_map_zero; lia |].
    intros c Hc. simpl. destruct (eqb c x) eqn:E; [| reflexivity].
    apply eqb_eq in E. subst. contradiction.
  - destruct (eqb y x) eqn:E.
    + apply eqb_eq in E. subst. contradiction.
    + rewrite IH by assumption. reflexivity.
Qed.

(** Over labels that cover a list, the counts of the labels with a
    property add up to the number of entries with the property. *)
Lemma sum_counts_where (P : A -> bool) (l cols : list A) :
  NoDup cols -> (forall x, In x l -> In x cols) ->
  zsum (map (fun c => if P c then count eqb c l else 0) cols)
  = Z.of_nat (length (filter P l)).
Proof.
  intros Hnd. induction l as [| x l IH]; intros Hcov.
  - simpl. erewrite map_ext; [apply zsum_map_zero |].
    intros c. simpl. now destruct (P c).
  - erewrite map_ext_in with
      (g := fun c => (if eqb c x then if P x then 1 else 0 else 0)
                     + (if P c then count eqb c l else 0)).
    + rewrite zsum_map_add, sum_indicator_scaled, IH.
      * simpl filter. destruct (P x); simpl length; lia.
      * intros y Hy. apply Hcov. now right.
      * exact Hnd.
      * apply Hcov. now left.
    + intros c _. simpl. rewrite count_cons.
      destruct (eqb c x) eqn:E.
      * apply eqb_eq in E. subst. destruct (P x); lia.
      * destruct (P c); lia.
Qed.

Lemma value_counts_sum_where (P : A -> bool) (l : list A) :
  zsum (map (fun r => if P (fst r) then snd r else 0) (value_counts eqb l))
  = Z.of_nat (length (filter P l)).
Proof.
  rewrite (zsum_perm (Permutation_map _ (value_counts_perm eqb l))).
  rewrite map_map. simpl.
  apply sum_counts_where.
  - now apply NoDup_unique.
  - intros x Hx. now apply In_unique.
Qed.

(** A value fills a list exactly when its count is the length. *)
Lemma count_full (f : A) (l : list A) :
  count eqb f l = Z.of_nat (length l) <-> forall y, In y l -> y = f.
Proof.
  induction l as [| x l IH].
  - split; [intros _ y [] | reflexivity].
  - rewrite count_cons. simpl length. rewrite Nat2Z.inj_succ.
    pose proof (count_le_length eqb f l) as Hle.
    destruct (eqb f x) eqn:E.
    + apply eqb_eq in E. subst x. split.
      * intros Hc y [<- | Hy]; [reflexivity |]. apply IH; [lia | exact Hy].
      * intros Hall. assert (Hc : count eqb f l = Z.of_nat (length l)).
        { apply IH. intros y Hy. apply Hall. now right. }
        lia.
    + split; [lia |]. intros Hall. exfalso.
      assert (Ex : x = f) by (apply Hall; now left).
      subst. rewrite (eqb_refl eqb eqb_eq) in E. discriminate.
Qed.

Lemma length_unique_le (l : list A) :
  (length (unique eqb l) <= length l)%nat.
Proof.
  induction l as [| x l IH]; simpl; [lia |].
  pose proof (filter_length_le (fun y => negb (eqb x y)) (unique eqb l)).
  lia.
Qed.

Lemma insert_by_count_descending (p : A * Z) (l : list (A * Z)) :
  descending (map snd l) -> descending (map snd (insert_by_count p l)).
Proof.
  induction l as [| q l IH]; simpl; [auto |].
  intros [Hq Hl]. destruct (snd q <=? snd p) eqn:E; simpl.
  - apply Z.leb_le in E. repeat split; try assumption.
    constructor; [exact E |].
    eapply Forall_impl; [| exact Hq]. intros z Hz. simpl in Hz. lia.
  - apply Z.leb_gt in E. split; [| auto].
    apply Forall_forall. intros z Hz. apply in_map_iff in Hz.
    destruct Hz as [r [<- Hr]].
    apply (Permutation_in _ (insert_by_count_perm p l)) in Hr.
    destruct Hr as [<- | Hr]; [lia |].
    rewrite Forall_forall in Hq. apply Hq. apply in_map_iff. eauto.
Qed.

Lemma value_counts_descending (l : list A) :
  descending (map snd (value_counts eqb l)).
Proof.
  unfold value_counts, sort_values_desc.
  induction (map (fun x => (x, count eqb x l)) (unique eqb l))
    as [| p rest IH]; simpl; [exact I |].
  now apply insert_by_count_descending.
Qed.
End CountFacts.

Section RowsOfPermutedColumns.
Variable A : Type.

Lemma Forall2_perm_refl (l : list (list A)) : Forall2 (@Permutation A) l l.
Proof. induction l; constructor; auto. Qed.

Lemma Forall2_perm_trans (l1 l2 l3 : list (list A)) :
  Forall2 (@Permutation A) l1 l2 -> Forall2 (@Permutation A) l2 l3 ->
  Forall2 (@Permutation A) l1 l3.
Proof.
  intros H12. revert l3. induction H12 as [| a b l1 l2 Hab _ IH];
    intros l3 H23; inversion H23; subst; constructor.
  - now transitivity b.
  - auto.
Qed.

Lemma zip_cons_perm (c : list A) (T T' : list (list A)) :
  Forall2 (@Permutation A) T T' ->
  Forall2 (@Permutation A)
          (map (fun xr => fst xr :: snd xr) (combine c T))
          (map (fun xr => fst xr :: snd xr) (combine c T')).
Proof.
  intros H. revert c. induction H as [| r r' T T' Hr _ IH]; intros [| x c];
    simpl; constructor; auto.
Qed.

Lemma zip_cons_swap (x y : list A) (T : list (list A)) :
  Forall2 (@Permutation A)
          (map (fun xr => fst xr :: snd xr)
               (combine y (map (fun xr => fst xr :: snd xr) (combine x T))))
          (map (fun xr => fst xr :: snd xr)
               (combine x (map (fun xr => fst xr :: snd xr) (combine y T)))).
Proof.
  revert x y. induction T as [| r T IH]; intros [| a x] [| b y]; simpl;
    try constructor.
  - apply perm_swap.
  - apply IH.
Qed.

(** The rows of the same columns in another order are the same rows with
    their entries in another order. *)
Lemma transpose_perm (n : nat) (cols cols' : list (list A)) :
  Permutation cols cols' ->
  Forall2 (@Permutation A) (transpose n cols) (transpose n cols').
Proof.
  induction 1 as [| c cols cols' _ IH | x y cols | c1 c2 c3 _ IH1 _ IH2].
  - apply Forall2_perm_refl.
  - simpl. now apply zip_cons_perm.
  - simpl. apply zip_cons_swap.
  - eapply Forall2_perm_trans; eauto.
Qed.

Lemma transpose_zero (cols : list (list A)) : transpose 0 cols = [].
Proof.
  induction cols as [| c cs IH]; simpl; [reflexivity |].
  rewrite IH. now destruct c.
Qed.

Lemma length_filter_Forall2 (R : list A -> list A -> Prop)
    (f : list A -> bool) (l l' : list (list A)) :
  (forall a b, R a b -> f a = f b) -> Forall2 R l l' ->
  length (filter f l) = length (filter f l').
Proof.
  intros Hf. induction 1 as [| a b l l' Hab _ IH]; simpl; [reflexivity |].
  rewrite (Hf a b Hab). destruct (f b); simpl; now rewrite IH.
Qed.
End RowsOfPermutedColumns.

Section AnalyzerMore.
Context {F : Type} {HF : Face F}.

Lemma all_equal_perm (l l' : list F) :
  Permutation l l' -> all_equal l = all_equal l'.
Proof.
  intros Hp.
  assert (Hiff : all_equal l = true <-> all_equal l' = true).
  { rewrite !all_equal_spec. split; intros Hall x y Hx Hy; apply Hall.
    - apply (Permutation_in _ (Permutation_sym Hp) Hx).
    - apply (Permutation_in _ (Permutation_sym Hp) Hy).
    - apply (Permutation_in _ Hp Hx).
    - apply (Permutation_in _ Hp Hy). }
  destruct (all_equal l), (all_equal l'); try reflexivity.
  - symmetry. now apply Hiff.
  - now apply Hiff.
Qed.

Lemma nunique_perm (l l' : list F) :
  Permutation l l' -> nunique l = nunique l'.
Proof.
  intros Hp. unfold nunique. apply Permutation_length.
  apply NoDup_Permutation; try (apply NoDup_unique; apply face_eqb_eq).
  intros x. rewrite !(In_unique face_eqb face_eqb_eq). split.
  - apply (Permutation_in _ Hp).
  - apply (Permutation_in _ (Permutation_sym Hp)).
Qed.

Lemma jackpot_value (a : Analyzer) (w : World F) (df : DataFrame F) :
  nth_error (frames w) (results a) = Some df ->
  jackpot a w
  = (Return (Z.of_nat (length (filter all_equal (iterrows df)))), w).
Proof.
  intros Hdf. unfold jackpot, bind, get_frame, ret. rewrite Hdf.
  unfold getitem_mask. rewrite length_filter_mask.
  do 4 f_equal. apply filter_ext_in. intros row Hrow. apply nunique_one.
  now apply (iterrows_rows_nonempty df).
Qed.

Lemma iterrows_no_rows (df : DataFrame F) : nrows df = O -> iterrows df = [].
Proof. unfold iterrows. intros ->. apply transpose_zero. Qed.

(** The table of [face_counts_per_roll], written out: nothing over a
    table without rows, else the counts of the faces that appear. *)
Lemma face_counts_value (a : Analyzer) (w : World F) (df : DataFrame F) :
  nth_error (frames w) (results a) = Some df ->
  exists t faces,
    face_counts_per_roll a w = (Return t, w) /\
    data t = map (fun row => map (fun f => count face_eqb f row) faces)
                 (iterrows df) /\
    forall row x, In row (iterrows df) -> In x row -> In x faces.
Proof.
  intros Hdf. unfold face_counts_per_roll, bind, get_frame, ret. rewrite Hdf.
  unfold astype_int, fillna, apply_value_counts.
  destruct (Nat.eqb (nrows df) 0) eqn:Hrows.
  - apply Nat.eqb_eq in Hrows. simpl orb. cbv iota.
    eexists _, []. split; [reflexivity |].
    rewrite (iterrows_no_rows df Hrows). split; [reflexivity |].
    intros row x [].
  - destruct (Nat.eqb (ncols df) 0) eqn:Hcols.
    + apply Nat.eqb_eq in Hcols. simpl orb. cbv iota.
      eexists _, []. split; [reflexivity |].
      rewrite (iterrows_no_columns df Hcols). split; [reflexivity |].
      intros row x [].
    + simpl orb. cbv iota beta.
      set (rows := iterrows df).
      set (faces := union_indexes
                      (map (map fst) (map (value_counts face_eqb) rows))).
      eexists _, faces. split; [reflexivity |]. simpl data. split.
      * rewrite !map_map. apply map_ext. intros row. rewrite map_map.
        apply map_ext. intros f.
        apply (lookup_value_counts face_eqb face_eqb_eq face_dec).
      * intros row x Hrow Hx. unfold faces. apply In_union_indexes.
        exists (map fst (value_counts face_eqb row)). split.
        -- rewrite map_map. apply in_map_iff. eauto.
        -- rewrite (In_value_counts_keys face_eqb face_eqb_eq). exact Hx.
Qed.

(** X17. The number of jackpots is the total of the counts that
    [combo()] gives to the combinations made of one face. *)
Theorem jackpot_adds_up_one_face_combos (w : World F) (a : Analyzer)
    (df : DataFrame F) :
  nth_error (frames w) (results a) = Some df ->
  exists j t,
    jackpot a w = (Return j, w) /\
    combo a w = (Return t, w) /\
    j = zsum (map (fun r => if all_equal (fst r) then snd r else 0)
                  (combo_rows t)).
Proof.
  intros Hdf. rewrite (jackpot_value a w Hdf).
  unfold combo, bind, get_frame, ret. rewrite Hdf.
  eexists _, _. split; [reflexivity |]. split; [reflexivity |].
  unfold rename, reset_index, apply_sorted_tuple. simpl combo_rows.
  rewrite (@value_counts_sum_where _ _
             (list_eqb_eq face_eqb face_eqb_eq) all_equal).
  rewrite length_filter_map. do 2 f_equal. apply filter_ext.
  intros row. apply all_equal_perm. apply Permutation_sym, sorted_perm.
Qed.

(** X18. A roll is a jackpot exactly when its row of
    [face_counts_per_roll()] holds the number of dice: the number of
    jackpots is the number of such rows. *)
Theorem jackpot_reads_off_face_counts (w : World F) (a : Analyzer)
    (df : DataFrame F) :
  nth_error (frames w) (results a) = Some df ->
  exists j t,
    jackpot a w = (Return j, w) /\
    face_counts_per_roll a w = (Return t, w) /\
    j = Z.of_nat (length (filter
                            (existsb (Z.eqb (Z.of_nat (ncols df))))
                            (data t))).
Proof.
  intros Hdf. rewrite (jackpot_value a w Hdf).
  destruct (face_counts_value a w Hdf) as [t [faces [Ht [Hdata Hcov]]]].
  exists (Z.of_nat (length (filter all_equal (iterrows df)))), t.
  split; [reflexivity |]. split; [exact Ht |].
  rewrite Hdata, length_filter_map. do 2 f_equal.
  apply filter_ext_in. intros row Hrow.
  pose proof (iterrows_row_length df) as Hlen.
  rewrite Forall_forall in Hlen. specialize (Hlen _ Hrow).
  pose proof (@iterrows_rows_nonempty _ df row Hrow) as Hne.
  destruct (existsb _ _) eqn:Hex.
  - apply existsb_exists in Hex. destruct Hex as [z [Hz Ez]].
    apply in_map_iff in Hz. destruct Hz as [f [<- _]].
    apply Z.eqb_eq in Ez. rewrite <- Hlen in Ez. symmetry in Ez.
    pose proof (proj1 (@count_full _ _ face_eqb_eq f row) Ez) as Hf.
    clear Ez. rename Hf into Ez.
    apply all_equal_spec. intros x y Hx Hy.
    now rewrite (Ez x Hx), (Ez y Hy).
  - destruct (all_equal row) eqn:Hall; [| reflexivity].
    exfalso. destruct row as [| x row]; [congruence |].
    assert (Hx : forall y, In y (x :: row) -> y = x).
    { intros y Hy. rewrite all_equal_spec in Hall.
      apply Hall; [exact Hy | now left]. }
    pose proof (proj2 (@count_full _ _ face_eqb_eq x (x :: row)) Hx) as Hc.
    clear Hx. rename Hc into Hx.
    assert (Hin : existsb (Z.eqb (Z.of_nat (ncols df)))
                    (map (fun f => count face_eqb f (x :: row)) faces)
                  = true).
    { apply existsb_exists. exists (count face_eqb x (x :: row)). split.
      - apply in_map_iff. exists x. split; [reflexivity |].
        apply (Hcov (x :: row)); [exact Hrow | now left].
      - apply Z.eqb_eq. rewrite Hx. now rewrite Hlen. }
    congruence.
Qed.

(** X19. [combo()] lists the combinations by decreasing count, the most
    frequent first; every count is at least 1, every combination holds
    as many faces as there are dice, in ascending order, and there are
    at most as many combinations as rolls. *)
Theorem combo_lists_most_frequent_first (w : World F) (a : Analyzer)
    (df : DataFrame F) :
  nth_error (frames w) (results a) = Some df -> rectangular df ->
  exists t,
    combo a w = (Return t, w) /\
    descending (map snd (combo_rows t)) /\
    Forall (fun r => 1 <= snd r /\
                     length (fst r) = ncols df /\
                     ascending (fst r)) (combo_rows t) /\
    (length (combo_rows t) <= nrows df)%nat.
Proof.
  intros Hdf Hrect. unfold combo, bind, get_frame, ret. rewrite Hdf.
  eexists. split; [reflexivity |].
  unfold rename, reset_index, apply_sorted_tuple. simpl combo_rows.
  pose proof (list_eqb_eq face_eqb face_eqb_eq) as Hleq.
  split; [apply value_counts_descending |]. split.
  - apply Forall_forall. intros [c k] Hin.
    pose proof (value_counts_pos _ Hleq (map sorted (iterrows df))) as Hpos.
    rewrite Forall_forall in Hpos. specialize (Hpos _ Hin). simpl in Hpos.
    apply (value_counts_In _ Hleq) in Hin. destruct Hin as [Hc _].
    apply in_map_iff in Hc. destruct Hc as [row [<- Hrow]]. simpl.
    split; [lia |]. split; [| apply sorted_ascending].
    rewrite (Permutation_length (sorted_perm row)).
    pose proof (iterrows_row_length df) as Hlen.
    rewrite Forall_forall in Hlen. auto.
  - rewrite (Permutation_length (value_counts_perm _ _)), length_map.
    pose proof (length_unique_le (list_eqb face_eqb)
                  (map sorted (iterrows df))) as Hle.
    rewrite length_map, (iterrows_length Hrect) in Hle. exact Hle.
Qed.

Lemma nrows_of_permuted_columns (df df' : DataFrame F) :
  rectangular df -> Permutation (columns df) (columns df') ->
  nrows df' = nrows df.
Proof.
  intros Hrect Hp. unfold nrows at 1.
  destruct (columns df') as [| c' cs'] eqn:E.
  - apply Permutation_sym, Permutation_nil in Hp. unfold nrows. now rewrite Hp.
  - unfold rectangular in Hrect. rewrite Forall_forall in Hrect.
    apply Hrect. apply (Permutation_in _ (Permutation_sym Hp)). now left.
Qed.

Lemma map_sorted_of_permuted_rows (rows rows' : list (list F)) :
  Forall2 (@Permutation F) rows rows' -> map sorted rows = map sorted rows'.
Proof.
  induction 1 as [| r r' rows rows' Hr _ IH]; simpl; [reflexivity |].
  rewrite IH. f_equal. now apply sorted_eq_iff_perm.
Qed.

(** X20. [combo()] and [jackpot()] do not depend on the order of the
    dice: over two results tables that hold the same columns in
    different orders they return the same table and the same number. *)
Theorem combo_and_jackpot_ignore_the_order_of_the_dice
    (w w' : World F) (a a' : Analyzer) (df df' : DataFrame F) :
  nth_error (frames w) (results a) = Some df ->
  nth_error (frames w') (results a') = Some df' ->
  rectangular df -> Permutation (columns df) (columns df') ->
  fst (combo a' w') = fst (combo a w) /\
  fst (jackpot a' w') = fst (jackpot a w).
Proof.
  intros Hdf Hdf' Hrect Hp.
  assert (Hrows : Forall2 (@Permutation F) (iterrows df) (iterrows df')).
  { unfold iterrows. rewrite (@nrows_of_permuted_columns df df' Hrect Hp).
    now apply transpose_perm. }
  split.
  - unfold combo, bind, get_frame, ret. rewrite Hdf, Hdf'. simpl.
    unfold apply_sorted_tuple.
    now rewrite (map_sorted_of_permuted_rows Hrows).
  - rewrite (jackpot_value a w Hdf), (jackpot_value a' w' Hdf'). simpl.
    do 2 f_equal. symmetry.
    apply (length_filter_Forall2 (R := @Permutation F)); [| exact Hrows].
    intros r r' Hr. now apply all_equal_perm.
Qed.
End AnalyzerMore.

(** * From a die to the statistics: the methods in sequence *)

Section Pipeline.
Context {F : Type} {HF : Face F}.

(** X21. [roll] reads the die and writes nothing: whatever it does, no
    die, game or frame changes, and the state of the die shown afterwards
    is the state shown before. *)
Theorem roll_leaves_the_die_as_it_is (d : nat) (n : Z) (w w' : World F)
    (o : outcome (list F)) :
  roll d n w = (o, w') ->
  same_objects w w' /\ fst (show_state d w') = fst (show_state d w).
Proof.
  intros Hroll. pose proof (roll_objects _ _ _ Hroll) as Hobj.
  split; [exact Hobj |]. destruct Hobj as [Hd _].
  unfold show_state, bind, get_die. rewrite Hd.
  now destruct (nth_error (dies w) d).
Qed.

(** The results of a [play] that returned, under the Analyzer made of the
    game next. *)
Lemma analysis_after_play (g : nat) (G : Game) (n : Z) (w w1 : World F) :
  nth_error (games w) g = Some G -> play g n w = (Return tt, w1) ->
  exists cols w2,
    Forall2 (column_of w n) (dice G) cols /\
    (dice G <> [] -> 0 <= n) /\
    rectangular {| index_name := Some "roll_number"; columns := cols |} /\
    show_results g "wide" w1
    = (Return (Wide (S (length (frames w)))), w2) /\
    Analyzer_init (PyGame g) w1
    = (Return {| game := g; results := S (length (frames w)) |}, w2) /\
    nth_error (frames w2) (S (length (frames w)))
    = Some {| index_name := Some "roll_number"; columns := cols |}.
Proof.
  intros HG Hplay.
  destruct (play_returns _ _ _ Hplay)
    as [G' [cols [HG' [Hcols [Hn [_ [Hgm [Hf [Hrect _]]]]]]]]].
  rewrite HG in HG'. injection HG' as <-.
  set (df := {| index_name := Some "roll_number"; columns := cols |}) in *.
  assert (HG1 : nth_error (games w1) g
                = Some {| dice := dice G;
                          _results := Some (length (frames w)) |}).
  { rewrite Hgm. now erewrite nth_error_set_nth_same by exact HG. }
  assert (Hdf : nth_error (frames w1) (length (frames w)) = Some df).
  { rewrite Hf. apply nth_error_snoc_new. }
  pose proof (show_results_wide g w1 HG1 eq_refl Hdf) as Hshow.
  assert (Hlen : length (frames w1) = S (length (frames w))).
  { rewrite Hf, length_app. simpl. lia. }
  rewrite Hlen in Hshow.
  eexists cols, _. split; [exact Hcols |]. split; [exact Hn |].
  split; [exact Hrect |]. split; [exact Hshow |]. split.
  - unfold Analyzer_init, bind. rewrite Hshow. reflexivity.
  - rewrite <- Hlen. exact (nth_error_snoc_new (frames w1) (copy df)).
Qed.

Lemma nrows_of_columns (ds : list nat) (cols : list (list F)) (n : Z)
    (w : World F) (name : option string) :
  Forall2 (column_of w n) ds cols -> ds <> [] ->
  nrows {| index_name := name; columns := cols |} = Z.to_nat n.
Proof.
  intros Hall Hne. destruct Hall as [| d c ds cs [D [_ [Hlen _]]] _];
    [congruence | exact Hlen].
Qed.

Lemma filter_all_equal_one_column (rows : list (list F)) :
  Forall (fun r => length r = 1%nat) rows -> filter all_equal rows = rows.
Proof.
  induction 1 as [| r rows Hr _ IH]; simpl; [reflexivity |].
  destruct r as [| x [| y r]]; try discriminate. simpl. now rewrite IH.
Qed.

(** X22. After [play(n)] has returned on a game with at least one die,
    [Analyzer(game)] returns; its [jackpot()] is between 0 and [n], and
    is [n] when the game has one die; the counts of its [combo()] add up
    to [n]. *)
Theorem analysis_of_a_played_game (g : nat) (G : Game) (n : Z)
    (w w1 : World F) :
  nth_error (games w) g = Some G -> dice G <> [] ->
  play g n w = (Return tt, w1) ->
  exists a w2 j t,
    Analyzer_init (PyGame g) w1 = (Return a, w2) /\
    jackpot a w2 = (Return j, w2) /\
    0 <= j <= n /\
    (length (dice G) = 1%nat -> j = n) /\
    combo a w2 = (Return t, w2) /\
    zsum (map snd (combo_rows t)) = n.
Proof.
  intros HG Hne Hplay.
  destruct (@analysis_after_play g G n w w1 HG Hplay)
    as [cols [w2 [Hcols [Hn [Hrect [_ [Ha Hdf]]]]]]].
  specialize (Hn Hne).
  set (df := {| index_name := Some "roll_number"; columns := cols |}) in *.
  set (a := {| game := g; results := S (length (frames w)) |}) in *.
  assert (Hrows : length (iterrows df) = Z.to_nat n).
  { rewrite (iterrows_length Hrect).
    exact (nrows_of_columns (Some "roll_number")%string Hcols Hne). }
  exists a, w2, (Z.of_nat (length (filter all_equal (iterrows df)))).
  eexists. split; [exact Ha |].
  split; [exact (jackpot_value a w2 Hdf) |]. split; [| split; [| split]].
  - pose proof (filter_length_le all_equal (iterrows df)). lia.
  - intros Hone. rewrite filter_all_equal_one_column; [lia |].
    pose proof (iterrows_row_length df) as Hlen.
    assert (Hc : ncols df = 1%nat).
    { unfold ncols. simpl. now rewrite <- (Forall2_length Hcols). }
    now rewrite Hc in Hlen.
  - unfold combo, bind, get_frame, ret.
    change (nth_error (frames w2) (results a) = Some df) in Hdf.
    rewrite Hdf. reflexivity.
  - unfold rename, reset_index, apply_sorted_tuple. simpl combo_rows.
    rewrite (@value_counts_sum _ _ (list_eqb_eq face_eqb face_eqb_eq)).
    rewrite length_map. lia.
Qed.
End Pipeline.

(** * The unit tests *)

Lemma fair_die_rollable :
  rollable {| die := map (fun f : Z => (f, Finite 1)) [1; 2; 3] |} = true.
Proof. reflexivity. Qed.

(** X23. [TestDie.test_change_weight] passes from every world: the die is
    built, the weight of face 1 is changed, and the weight shown at
    label 0 equals 5. *)
Theorem test_change_weight_passes (w : World Z) :
  exists w', test_change_weight w = (Return true, w').
Proof.
  unfold test_change_weight. unfold bind at 1. rewrite Die_init_list.
  match goal with
  | |- context [bind (change_weight _ _ _) _ ?w0] => set (wa := w0)
  end.
  assert (Hd : nth_error (dies wa) (length (dies w)) = Some fair_die)
    by apply nth_error_snoc_new.
  assert (Hin : In 1 (map fst (die fair_die))) by (simpl; auto).
  unfold bind at 1.
  rewrite (@change_weight_present Z Face_Z _ fair_die 1 (Finite 5) wa Hd Hin).
  match goal with
  | |- context [bind (show_state _) _ ?w0] => set (wb := w0)
  end.
  assert (Hs : show_state (length (dies w)) wb
               = (Return (loc_set_weight 1 (Finite 5) (die fair_die)), wb)).
  { unfold show_state, bind, get_die, ret. cbn [dies wb].
    now erewrite nth_error_set_nth_same by exact Hd. }
  unfold bind at 1. rewrite Hs. unfold bind at 1. rewrite Hs.
  unfold bind, loc_weight, ret. simpl. eauto.
Qed.

(** X24. [TestGame.test_play] passes whatever the random draws and from
    every world: the two dice are rolled 10 times and the results have
    10 rows. *)
Theorem test_play_passes (w : World Z) :
  exists w', test_play w = (Return true, w').
Proof.
  unfold test_play. unfold bind at 1. rewrite Die_init_list.
  unfold bind at 1. rewrite Die_init_list. cbn [dies games frames rng].
  unfold bind at 1.
  change (Game_init (F := Z) (PyList [PyDie ?a; PyDie ?b]) ?w0)
    with (new_game {| dice := [a; b]; _results := None |} w0).
  unfold new_game. cbn [dies games frames rng].
  match goal with
  | |- context [bind (play _ _) _ ?w0] => set (wc := w0)
  end.
  set (G := {| dice := _; _results := None |}) in *.
  assert (HG : nth_error (games wc) (length (games w)) = Some G)
    by apply nth_error_snoc_new.
  assert (Hds : Forall (fun d => exists D, nth_error (dies wc) d = Some D /\
                                           rollable D = true) (dice G)).
  { repeat constructor.
    - eexists. split; [| exact fair_die_rollable].
      simpl. rewrite nth_error_snoc_old by (rewrite length_app; simpl; lia).
      apply nth_error_snoc_new.
    - eexists. split; [| exact fair_die_rollable].
      simpl. apply nth_error_snoc_new. }
  destruct (play_rollable (length (games w)) wc HG Hds (n := 10))
    as [w1 Hplay]; [lia |].
  destruct (@analysis_after_play Z _ G 10 wc w1 HG Hplay)
    as [cols [w2 [Hcols [_ [_ [Hshow [_ Hdf]]]]]]].
  unfold bind at 1. rewrite Hplay. unfold bind at 1. rewrite Hshow.
  cbv beta iota delta [len_view bind get_frame ret]. rewrite Hdf.
  rewrite (nrows_of_columns (Some "roll_number")%string Hcols)
    by discriminate.
  simpl. eauto.
Qed.

(** X25. The script of [TesttAnalyzer.test_jackpot] returns whatever the
    random draws and from every world, and the [jackpot_count] that the
    test asserts to be an [int] is 5: with one die every roll is a
    jackpot. *)
Theorem test_jackpot_counts_every_roll (w : World Z) :
  exists w', test_jackpot w = (Return 5, w').
Proof.
  unfold test_jackpot. unfold bind at 1. rewrite Die_init_list.
  unfold bind at 1.
  change (Game_init (F := Z) (PyList [PyDie ?a]) ?w0)
    with (new_game {| dice := [a]; _results := None |} w0).
  unfold new_game. cbn [dies games frames rng].
  match goal with
  | |- context [bind (play _ _) _ ?w0] => set (wc := w0)
  end.
  set (G := {| dice := _; _results := None |}) in *.
  assert (HG : nth_error (games wc) (length (games w)) = Some G)
    by apply nth_error_snoc_new.
  assert (Hds : Forall (fun d => exists D, nth_error (dies wc) d = Some D /\
                                           rollable D = true) (dice G)).
  { repeat constructor. eexists. split; [| exact fair_die_rollable].
    simpl. apply nth_error_snoc_new. }
  destruct (play_rollable (length (games w)) wc HG Hds (n := 5))
    as [w1 Hplay]; [lia |].
  destruct (@analysis_after_play Z _ G 5 wc w1 HG Hplay)
    as [cols [w2 [Hcols [_ [Hrect [Hshow [Ha Hdf]]]]]]].
  unfold bind at 1. rewrite Hplay. unfold bind at 1. rewrite Ha.
  unfold bind at 1.
  set (a := {| game := _; results := _ |}) in *.
  set (df := {| index_name := Some "roll_number"; columns := cols |}) in *.
  change (nth_error (frames w2) (results a) = Some df) in Hdf.
  rewrite (jackpot_value a w2 Hdf).
  assert (Hj : Z.of_nat (length (filter all_equal (iterrows df))) = 5).
  { rewrite filter_all_equal_one_column.
    - rewrite (iterrows_length Hrect). unfold df.
      now rewrite (nrows_of_columns (Some "roll_number")%string Hcols)
        by discriminate.
    - pose proof (iterrows_row_length df) as Hlen.
      assert (Hc : ncols df = 1%nat).
      { unfold ncols. simpl. now rewrite <- (Forall2_length Hcols). }
      now rewrite Hc in Hlen. }
  rewrite Hj.
  assert (HG2 : exists G2 r df2, nth_error (games w2) (length (games w)) = Some G2 /\
                  _results G2 = Some r /\ nth_error (frames w2) r = Some df2).
  { destruct (play_returns _ _ _ Hplay)
      as [G' [cols' [HG' [_ [_ [_ [Hgm [Hf _]]]]]]]].
    destruct (Analyzer_init_returns _ _ Ha)
      as [g0 [G0 [r0 [df0 [_ [_ [_ [_ [_ [_ [_ [Hgm2 Hf2]]]]]]]]]]]].
    eexists _, (length (frames wc)), _. rewrite Hgm2, Hgm, Hf2. split.
    - erewrite nth_error_set_nth_same by exact HG'. reflexivity.
    - split; [reflexivity |].
      rewrite nth_error_snoc_old by (rewrite Hf, length_app; simpl; lia).
      rewrite Hf. apply nth_error_snoc_new. }
  destruct HG2 as [G2 [r [df2 [HG2 [Hr Hdf2]]]]].
  unfold bind. rewrite (show_results_wide _ w2 HG2 Hr Hdf2). unfold ret.
  eauto.
Qed.

(** * A die without faces *)

Section NoFaces.
Context {F : Type}.

Lemma roll_without_faces (d : nat) (n : Z) (w : World F) :
  nth_error (dies w) d = Some {| die := [] |} ->
  roll d n w
  = (Raise (ValueError
              (if n =? 0 then "probabilities do not sum to 1"
               else "'a' cannot be empty unless no samples are taken")), w).
Proof.
  intros Hd. unfold roll, bind, get_die, np_random_choice. rewrite Hd.
  simpl. unfold choice. simpl.
  destruct (n =? 0); simpl; now destruct w.
Qed.

(** X26. A die without faces can be built but never rolled: [Die([])]
    returns a die whose state has no row, and [roll(n)] on it raises
    [ValueError] for every [n], also for 0, as does [play(n)] on a game
    of that die; neither changes the world. *)
Theorem die_without_faces_cannot_be_rolled (n : Z) (w : World F) :
  exists d w1 g w2 msg,
    Die_init (PyList []) w = (Return d, w1) /\
    show_state d w1 = (Return [], w1) /\
    roll d n w1 = (Raise (ValueError msg), w1) /\
    Game_init (PyList [PyDie d]) w1 = (Return g, w2) /\
    play g n w2 = (Raise (ValueError msg), w2).
Proof.
  rewrite Die_init_list.
  set (w1 := {| dies := _; games := games w |}).
  assert (Hd : nth_error (dies w1) (length (dies w))
               = Some {| die := @nil (F * float64) |})
    by apply nth_error_snoc_new.
  exists (length (dies w)), w1, (length (games w1)).
  eexists. eexists. split; [reflexivity |]. split.
  { unfold show_state, bind, get_die, ret. now rewrite Hd. }
  split; [exact (@roll_without_faces _ n w1 Hd) |].
  split; [reflexivity |].
  match goal with |- play _ _ ?w0 = _ => set (w2 := w0) end.
  assert (Hd2 : nth_error (dies w2) (length (dies w))
                = Some {| die := @nil (F * float64) |}) by exact Hd.
  unfold play, bind at 1, get_game.
  assert (HG : nth_error (games w2) (length (games w1))
               = Some {| dice := [length (dies w)]; _results := None |})
    by apply nth_error_snoc_new.
  rewrite HG. simpl roll_each. unfold bind.
  now rewrite (@roll_without_faces _ n w2 Hd2).
Qed.
End NoFaces.

(** * The further properties at concrete runs *)


(** X3 at [Die([1, 2, 3])] and [change_weight(7, 2)]. *)
Lemma change_weight_missing_face_witness :
  nth_error (dies one_die_world) 0 = Some fair_die /\
  ~ In 7 (map fst (die fair_die)) /\
  change_weight 0 7 (Finite 2) one_die_world
  = (Raise (ValueError "Face 7 does not exist."), one_die_world) /\
  show_state 0 one_die_world = (Return (die fair_die), one_die_world).
Proof.
  assert (Hnot : ~ In 7 (map fst (die fair_die))).
  { simpl. intros [H | [H | [H | []]]]; discriminate. }
  split; [reflexivity |]. split; [exact Hnot |].
  apply (@change_weight_missing_face Z Face_Z 0%nat fair_die 7 (Finite 2)
           one_die_world eq_refl Hnot).
Defined.

(** X4 at [change_weight(2, 5)] and then [change_weight(2, 3)]. *)
Lemma change_weight_last_call_wins_witness :
  nth_error (dies one_die_world) 0 = Some fair_die /\
  In 2 (map fst (die fair_die)) /\
  fst (change_weight 0 2 (Finite 3)
         (snd (change_weight 0 2 (Finite 5) one_die_world))) = Return tt /\
  snd (change_weight 0 2 (Finite 3)
         (snd (change_weight 0 2 (Finite 5) one_die_world)))
  = snd (change_weight 0 2 (Finite 3) one_die_world).
Proof.
  assert (Hin : In 2 (map fst (die fair_die))) by (simpl; auto).
  split; [reflexivity |]. split; [exact Hin |].
  apply (@change_weight_last_call_wins Z Face_Z 0%nat fair_die 2 (Finite 5)
           (Finite 3) one_die_world eq_refl Hin).
Defined.

(** X5 at [change_weight(1, 5)] and [change_weight(3, 0)]. *)
Lemma change_weight_order_of_faces_witness :
  nth_error (dies one_die_world) 0 = Some fair_die /\
  In 1 (map fst (die fair_die)) /\ In 3 (map fst (die fair_die)) /\
  1 <> 3 /\
  change_weight 0 3 (Finite 0)
    (snd (change_weight 0 1 (Finite 5) one_die_world))
  = change_weight 0 1 (Finite 5)
      (snd (change_weight 0 3 (Finite 0) one_die_world)).
Proof.
  assert (H1 : In 1 (map fst (die fair_die))) by (simpl; auto).
  assert (H3 : In 3 (map fst (die fair_die))) by (simpl; auto).
  assert (Hne : 1 <> 3) by discriminate.
  split; [reflexivity |]. split; [exact H1 |]. split; [exact H3 |].
  split; [exact Hne |].
  apply (@change_weight_order_of_faces Z Face_Z 0%nat fair_die 1 3
           (Finite 5) (Finite 0) one_die_world eq_refl H1 H3 Hne).
Defined.


(** X7 at the die with the weights 0 and 1: five rolls, never face 1. *)
Lemma roll_never_draws_a_face_of_weight_zero_witness :
  nth_error (dies loaded_world) 0 = Some loaded_die /\
  forallb nonneg_weight (map snd (die loaded_die)) = true /\
  roll 0 5 loaded_world = (Return [2; 2; 2; 2; 2], snd (roll 0 5 loaded_world)) /\
  zero_weight loaded_die 1 /\
  Forall (positive_face loaded_die) [2; 2; 2; 2; 2] /\
  ~ In 1 [2; 2; 2; 2; 2].
Proof.
  assert (Hzero : zero_weight loaded_die 1).
  { intros y [H | [H | []]]; [now injection H as <- | discriminate]. }
  split; [reflexivity |]. split; [reflexivity |]. split; [reflexivity |].
  split; [exact Hzero |].
  destruct (@roll_never_draws_a_face_of_weight_zero Z 0%nat 5 loaded_world
              (snd (roll 0 5 loaded_world)) loaded_die [2; 2; 2; 2; 2]
              eq_refl eq_refl eq_refl) as [Hpos Hnever].
  split; [exact Hpos | exact (Hnever 1 Hzero)].
Defined.

(** X9 at the game of two dice before any [play]. *)
Lemma show_results_before_play_witness :
  nth_error (games two_dice_world) 0 = Some two_dice_game /\
  _results two_dice_game = None /\
  show_results 0 "narrow" two_dice_world
  = (Raise (ValueError "No results available. Please play the game first."),
     two_dice_world).
Proof.
  split; [reflexivity |]. split; [reflexivity |].
  apply (@show_results_before_play Z 0%nat two_dice_game "narrow"
           two_dice_world eq_refl eq_refl).
Defined.

(** X10 at the played game and the form ['long']. *)
Lemma show_results_invalid_form_witness :
  nth_error (games played_world) 0 = Some played_game /\
  _results played_game = Some 0%nat /\
  "long"%string <> "wide"%string /\ "long"%string <> "narrow"%string /\
  show_results 0 "long" played_world
  = (Raise (ValueError "Invalid form option. Use 'wide' or 'narrow'."),
     played_world).
Proof.
  assert (Hw : "long"%string <> "wide"%string) by discriminate.
  assert (Hn : "long"%string <> "narrow"%string) by discriminate.
  split; [reflexivity |]. split; [reflexivity |]. split; [exact Hw |].
  split; [exact Hn |].
  apply (@show_results_invalid_form Z 0%nat played_game 0%nat "long"
           played_world eq_refl eq_refl Hw Hn).
Defined.

(** X11 at the played game: the frame handed back is frame 1, the results
    are frame 0. *)
Lemma show_results_wide_is_a_copy_witness :
  nth_error (games played_world) 0 = Some played_game /\
  _results played_game = Some 0%nat /\
  nth_error (frames played_world) 0 = Some example_frame /\
  exists r' w1 df',
    show_results 0 "wide" played_world = (Return (Wide r'), w1) /\
    r' <> 0%nat /\ nth_error (frames played_world) r' = None /\
    nth_error (frames w1) r' = Some df' /\
    columns df' = columns example_frame /\
    index_name df' = index_name example_frame /\
    only_new_frames played_world w1.
Proof.
  split; [reflexivity |]. split; [reflexivity |]. split; [reflexivity |].
  apply (@show_results_wide_is_a_copy Z 0%nat played_game 0%nat
           example_frame played_world eq_refl eq_refl eq_refl).
Defined.


(** X13 at the game of two dice and [play(-1)]. *)
Lemma play_negative_count_witness :
  nth_error (games two_dice_world) 0 = Some two_dice_game /\
  dice two_dice_game = [0%nat; 1%nat] /\
  nth_error (dies two_dice_world) 0 = Some fair_die /\
  -1 < 0 /\
  exists msg w',
    play 0 (-1) two_dice_world = (Raise (ValueError msg), w') /\
    same_objects two_dice_world w'.
Proof.
  split; [reflexivity |]. split; [reflexivity |]. split; [reflexivity |].
  split; [reflexivity |].
  apply (@play_negative_count Z 0%nat two_dice_game 0%nat [1%nat] fair_die
           (-1) two_dice_world eq_refl eq_refl eq_refl eq_refl).
Defined.

(** X14 at the game of two dice and [play(4)]. *)
Lemma play_touches_one_game_witness :
  play 0 4 two_dice_world = (Return tt, played_world) /\
  dies played_world = dies two_dice_world /\
  (forall G, nth_error (games two_dice_world) 0 = Some G ->
             exists G', nth_error (games played_world) 0 = Some G' /\
                        dice G' = dice G).
Proof.
  split; [reflexivity |].
  destruct (@play_touches_one_game Z 0%nat 4 two_dice_world played_world
              (Return tt) eq_refl) as [Hd [_ [Hg _]]].
  split; [exact Hd | exact Hg].
Defined.

(** X15 at the game of the die with the weights 0 and 1 and [play(3)]. *)
Lemma play_uses_the_weights_of_the_moment_witness :
  nth_error (games loaded_world) 0 = Some loaded_game /\
  Forall (fun d => exists D, nth_error (dies loaded_world) d = Some D /\
                   forallb nonneg_weight (map snd (die D)) = true)
         (dice loaded_game) /\
  play 0 3 loaded_world = (Return tt, snd (play 0 3 loaded_world)) /\
  exists G1 r df,
    nth_error (games (snd (play 0 3 loaded_world))) 0 = Some G1 /\
    _results G1 = Some r /\
    nth_error (frames (snd (play 0 3 loaded_world))) r = Some df /\
    Forall2 (fun d c =>
               exists D, nth_error (dies loaded_world) d = Some D /\
                         Forall (positive_face D) c /\
                         forall f, zero_weight D f -> ~ In f c)
            (dice loaded_game) (columns df).
Proof.
  assert (Hdice : Forall (fun d => exists D,
                            nth_error (dies loaded_world) d = Some D /\
                            forallb nonneg_weight (map snd (die D)) = true)
                         (dice loaded_game)).
  { constructor; [| constructor]. exists loaded_die. split; reflexivity. }
  split; [reflexivity |]. split; [exact Hdice |]. split; [reflexivity |].
  apply (@play_uses_the_weights_of_the_moment Z 0%nat loaded_game 3
           loaded_world (snd (play 0 3 loaded_world)) eq_refl Hdice eq_refl).
Defined.

(** X16 at the game of two dice before any [play]. *)
Lemma Analyzer_init_rejects_witness :
  nth_error (games two_dice_world) 0 = Some two_dice_game /\
  _results two_dice_game = None /\
  Analyzer_init (PyGame 0) two_dice_world
  = (Raise (ValueError "No results available. Please play the game first."),
     two_dice_world) /\
  Analyzer_init (PyDie 0) two_dice_world
  = (Raise (TypeError "Input must be an instance of the Game class."),
     two_dice_world).
Proof.
  split; [reflexivity |]. split; [reflexivity |].
  destruct (@Analyzer_init_rejects Z 0%nat two_dice_game two_dice_world
              eq_refl eq_refl) as [Hg [Hd _]].
  split; [exact Hg | exact (Hd 0%nat)].
Defined.

(** X17 at the results of the run: one jackpot, the combination (1, 1)
    with the count 1. *)
Lemma jackpot_adds_up_one_face_combos_witness :
  nth_error (frames analysed_world) (results example_analyzer)
  = Some example_frame /\
  exists j t,
    jackpot example_analyzer analysed_world = (Return j, analysed_world) /\
    combo example_analyzer analysed_world = (Return t, analysed_world) /\
    j = zsum (map (fun r => if all_equal (fst r) then snd r else 0)
                  (combo_rows t)).
Proof.
  split; [reflexivity |].
  apply (@jackpot_adds_up_one_face_combos Z Face_Z analysed_world
           example_analyzer example_frame eq_refl).
Defined.

(** X18 at the same results: the row (2, 0, 0) of the face counts. *)
Lemma jackpot_reads_off_face_counts_witness :
  nth_error (frames analysed_world) (results example_analyzer)
  = Some example_frame /\
  exists j t,
    jackpot example_analyzer analysed_world = (Return j, analysed_world) /\
    face_counts_per_roll example_analyzer analysed_world
    = (Return t, analysed_world) /\
    j = Z.of_nat (length (filter
                            (existsb (Z.eqb (Z.of_nat (ncols example_frame))))
                            (data t))).
Proof.
  split; [reflexivity |].
  apply (@jackpot_reads_off_face_counts Z Face_Z analysed_world
           example_analyzer example_frame eq_refl).
Defined.

(** X19 at the same results. *)
Lemma combo_lists_most_frequent_first_witness :
  nth_error (frames analysed_world) (results example_analyzer)
  = Some example_frame /\
  rectangular example_frame /\
  exists t,
    combo example_analyzer analysed_world = (Return t, analysed_world) /\
    descending (map snd (combo_rows t)) /\
    Forall (fun r => 1 <= snd r /\
                     length (fst r) = ncols example_frame /\
                     ascending (fst r)) (combo_rows t) /\
    (length (combo_rows t) <= nrows example_frame)%nat.
Proof.
  assert (Hrect : rectangular example_frame) by (repeat constructor).
  split; [reflexivity |]. split; [exact Hrect |].
  apply (@combo_lists_most_frequent_first Z Face_Z analysed_world
           example_analyzer example_frame eq_refl Hrect).
Defined.

(** X20 at the results of the run and the same columns in the other
    order. *)
Lemma combo_and_jackpot_ignore_the_order_of_the_dice_witness :
  nth_error (frames two_tables_world) (results example_analyzer)
  = Some example_frame /\
  nth_error (frames two_tables_world) (results swapped_analyzer)
  = Some swapped_frame /\
  rectangular example_frame /\
  Permutation (columns example_frame) (columns swapped_frame) /\
  fst (combo swapped_analyzer two_tables_world)
  = fst (combo example_analyzer two_tables_world) /\
  fst (jackpot swapped_analyzer two_tables_world)
  = fst (jackpot example_analyzer two_tables_world).
Proof.
  assert (Hrect : rectangular example_frame) by (repeat constructor).
  assert (Hp : Permutation (columns example_frame) (columns swapped_frame))
    by apply perm_swap.
  split; [reflexivity |]. split; [reflexivity |]. split; [exact Hrect |].
  split; [exact Hp |].
  apply (@combo_and_jackpot_ignore_the_order_of_the_dice Z Face_Z
           two_tables_world two_tables_world example_analyzer
           swapped_analyzer example_frame swapped_frame eq_refl eq_refl
           Hrect Hp).
Defined.

(** X21 at [Die([1, 2, 3])] and [roll(4)]. *)
Lemma roll_leaves_the_die_as_it_is_witness :
  roll 0 4 one_die_world
  = (Return [1; 1; 2; 3], snd (roll 0 4 one_die_world)) /\
  same_objects one_die_world (snd (roll 0 4 one_die_world)) /\
  fst (show_state 0 (snd (roll 0 4 one_die_world)))
  = Return (die fair_die).
Proof.
  split; [reflexivity |].
  apply (@roll_leaves_the_die_as_it_is Z 0%nat 4 one_die_world
           (snd (roll 0 4 one_die_world)) (Return [1; 1; 2; 3]) eq_refl).
Defined.

(** X22 at the game of two dice and [play(4)]. *)
Lemma analysis_of_a_played_game_witness :
  nth_error (games two_dice_world) 0 = Some two_dice_game /\
  dice two_dice_game <> [] /\
  play 0 4 two_dice_world = (Return tt, played_world) /\
  exists a w2 j t,
    Analyzer_init (PyGame 0) played_world = (Return a, w2) /\
    jackpot a w2 = (Return j, w2) /\
    0 <= j <= 4 /\
    (length (dice two_dice_game) = 1%nat -> j = 4) /\
    combo a w2 = (Return t, w2) /\
    zsum (map snd (combo_rows t)) = 4.
Proof.
  assert (Hne : dice two_dice_game <> []) by discriminate.
  split; [reflexivity |]. split; [exact Hne |]. split; [reflexivity |].
  apply (@analysis_of_a_played_game Z Face_Z 0%nat two_dice_game 4
           two_dice_world played_world eq_refl Hne eq_refl).
Defined.
